(** * catsa-janga: checkpoint store and shutdown coordinator

    A shallow embedding of [src/index.ts] (class [CatsaJanga]) and of the
    earlier revision of the same file that still carries the static
    [createWithRestore] factory.

    The class talks to three platform services: [node:fs] promises,
    [node:process] (listener registration and [process.exit]) and the
    global [JSON] object, and to a caller-supplied logger. The platform
    is an explicit [World]: the files with the failures the environment
    injects, the listeners, the cells of captured variables, and the
    trace of what the process did. Asynchronous methods are trees whose
    [Await] nodes are the suspension points of the source; they are run
    either directly, as a call from the main program, or by an event loop
    that interleaves suspended tasks with incoming events.

    Conventions:
    - the logger records and returns: [logger.info] and [logger.error]
      append an entry to the trace and do not throw;
    - a thrown value is an [Error] object, and so is the argument of an
      [uncaughtException] or [unhandledRejection] notification;
    - [await] on the promise of an async method runs the method in place:
      as in the source, a task is suspended only on an [fs] promise;
    - [T | undefined] is [option T]. *)

From stdpp Require Import gmap strings list pretty.
From Stdlib Require Import ZArith Ascii.

Set Warnings "-register-all".

Set Default Proof Using "Type".

(** ** Values crossing the platform boundary *)

(** A thrown value: an [Error] object with its [name] and [message]. *)
Record JsError : Type := mkError { name : string; message : string }.

(** [Error.prototype.toString], which is what a template literal
    [`${error}`] renders. *)
Definition Error_toString (e : JsError) : string :=
  if String.eqb (name e) EmptyString then message e
  else if String.eqb (message e) EmptyString then name e
  else name e +:+ ": " +:+ message e.

(** The result of a call that may throw, or of a promise that settles. *)
Inductive Outcome (A : Type) : Type :=
| Returns (a : A)
| Throws (e : JsError).
Arguments Returns {A} a.
Arguments Throws {A} e.

(** ** The [JSON] codec

    [JSON.stringify(value, null, 2)] yields a string, or [undefined] for a
    value that has no JSON text, or throws (cyclic structure, BigInt);
    [JSON.parse(text)] yields a value or throws a [SyntaxError]. The
    snapshot type [T] of the class is generic, so the codec is an
    interface over it. *)
Class Codec (T : Type) : Type := {
  JSON_stringify : T -> Outcome (option string);
  JSON_parse : string -> Outcome T;
}.

(** ** A reference codec

    The JSON texts of the values built from [null], booleans, integers,
    byte strings, arrays and objects, printed as
    [JSON.stringify(value, null, 2)] prints them and read back as
    [JSON.parse] reads them. Number texts with a fraction or an exponent
    and [\u] escapes above [00ff] denote no value of this type and are
    rejected. It is an instance of the interface, the one the scenarios
    are run with; the class itself is generic in the codec. *)
Module MiniJSON.

Local Open Scope Z_scope.

Inductive Json : Type :=
| JNull
| JBool (b : bool)
| JNumber (n : Z)
| JString (s : string)
| JArray (items : list Json)
| JObject (members : list (string * Json)).

Definition dquote : ascii := ascii_of_nat 34.
Definition backslash : ascii := ascii_of_nat 92.
Definition newline : ascii := ascii_of_nat 10.
Definition str (c : ascii) : string := String c EmptyString.

Definition hex_digit (n : nat) : ascii :=
  ascii_of_nat (if (n <? 10)%nat then 48 + n else 87 + n)%nat.

(** [QuoteJSONString] on one character. *)
Definition quote_char (c : ascii) : string :=
  let n := nat_of_ascii c in
  if Ascii.eqb c dquote then String backslash (str dquote)
  else if Ascii.eqb c backslash then String backslash (str backslash)
  else if (n =? 8)%nat then String backslash "b"
  else if (n =? 9)%nat then String backslash "t"
  else if (n =? 10)%nat then String backslash "n"
  else if (n =? 12)%nat then String backslash "f"
  else if (n =? 13)%nat then String backslash "r"
  else if (n <? 32)%nat
       then String backslash
              ("u00" +:+ str (hex_digit (n / 16)) +:+ str (hex_digit (n mod 16)))
  else str c.

Fixpoint quote_chars (s : string) : string :=
  match s with
  | EmptyString => EmptyString
  | String c r => quote_char c +:+ quote_chars r
  end.

Definition quote (s : string) : string :=
  str dquote +:+ quote_chars s +:+ str dquote.

Fixpoint join (sep : string) (l : list string) : string :=
  match l with
  | [] => EmptyString
  | [x] => x
  | x :: r => x +:+ sep +:+ join sep r
  end.

Definition gap : string := "  ".

(** [SerializeJSONProperty] with the gap of two spaces; [indent] is the
    current indentation. *)
Fixpoint serialize (indent : string) (v : Json) : string :=
  match v with
  | JNull => "null"
  | JBool true => "true"
  | JBool false => "false"
  | JNumber n => pretty n
  | JString s => quote s
  | JArray [] => "[]"
  | JArray items =>
      let inner := indent +:+ gap in
      let sep := "," +:+ str newline +:+ inner in
      "[" +:+ str newline +:+ inner
          +:+ join sep (map (serialize inner) items)
          +:+ str newline +:+ indent +:+ "]"
  | JObject [] => "{}"
  | JObject members =>
      let inner := indent +:+ gap in
      let sep := "," +:+ str newline +:+ inner in
      "{" +:+ str newline +:+ inner
          +:+ join sep (map (fun kv => quote (fst kv) +:+ ": " +:+ serialize inner (snd kv))
                            members)
          +:+ str newline +:+ indent +:+ "}"
  end.

Definition stringify (v : Json) : string := serialize EmptyString v.

(** *** Parsing *)

Definition is_ws (c : ascii) : bool :=
  let n := nat_of_ascii c in
  (n =? 32)%nat || (n =? 9)%nat || (n =? 10)%nat || (n =? 13)%nat.

Fixpoint skip_ws (s : string) : string :=
  match s with
  | String c r => if is_ws c then skip_ws r else s
  | EmptyString => s
  end.

Fixpoint strip_prefix (p s : string) : option string :=
  match p, s with
  | EmptyString, _ => Some s
  | String a p', String b s' => if Ascii.eqb a b then strip_prefix p' s' else None
  | _, _ => None
  end.

Definition digit_value (c : ascii) : option Z :=
  let n := nat_of_ascii c in
  if (48 <=? n)%nat && (n <=? 57)%nat then Some (Z.of_nat (n - 48)) else None.

Definition hex_value (c : ascii) : option nat :=
  let n := nat_of_ascii c in
  if (48 <=? n)%nat && (n <=? 57)%nat then Some (n - 48)%nat
  else if (97 <=? n)%nat && (n <=? 102)%nat then Some (n - 87)%nat
  else if (65 <=? n)%nat && (n <=? 70)%nat then Some (n - 55)%nat
  else None.

Fixpoint parse_digits (acc : Z) (s : string) : Z * string :=
  match s with
  | String c r =>
      match digit_value c with
      | Some d => parse_digits (10 * acc + d) r
      | None => (acc, s)
      end
  | EmptyString => (acc, s)
  end.

Definition starts_fraction (s : string) : bool :=
  match s with
  | String c _ => Ascii.eqb c "." || Ascii.eqb c "e" || Ascii.eqb c "E"
  | EmptyString => false
  end.

(** An integer: [0], or a non-zero digit followed by digits. *)
Definition parse_nat (s : string) : option (Z * string) :=
  match s with
  | String c r =>
      match digit_value c with
      | Some 0 =>
          match r with
          | String c' _ =>
              match digit_value c' with
              | Some _ => None
              | None => if starts_fraction r then None else Some (0, r)
              end
          | EmptyString => Some (0, r)
          end
      | Some d =>
          let '(n, r') := parse_digits d r in
          if starts_fraction r' then None else Some (n, r')
      | None => None
      end
  | EmptyString => None
  end.

Definition parse_escape (s : string) : option (ascii * string) :=
  match s with
  | String c r =>
      if Ascii.eqb c dquote then Some (dquote, r)
      else if Ascii.eqb c backslash then Some (backslash, r)
      else if Ascii.eqb c "/" then Some ("/"%char, r)
      else if Ascii.eqb c "b" then Some (ascii_of_nat 8, r)
      else if Ascii.eqb c "t" then Some (ascii_of_nat 9, r)
      else if Ascii.eqb c "n" then Some (ascii_of_nat 10, r)
      else if Ascii.eqb c "f" then Some (ascii_of_nat 12, r)
      else if Ascii.eqb c "r" then Some (ascii_of_nat 13, r)
      else if Ascii.eqb c "u" then
        match r with
        | String h1 (String h2 (String h3 (String h4 r'))) =>
            match hex_value h1, hex_value h2, hex_value h3, hex_value h4 with
            | Some 0%nat, Some 0%nat, Some a, Some b => Some (ascii_of_nat (16 * a + b), r')
            | _, _, _, _ => None
            end
        | _ => None
        end
      else None
  | EmptyString => None
  end.

(** The characters of a string literal after its opening quote. *)
Fixpoint parse_chars (fuel : nat) (s : string) : option (string * string) :=
  match fuel with
  | O => None
  | S fuel =>
      match s with
      | String c r =>
          if Ascii.eqb c dquote then Some (EmptyString, r)
          else if Ascii.eqb c backslash then
            '(c', r') ← parse_escape r;
            '(cs, r'') ← parse_chars fuel r';
            Some (String c' cs, r'')
          else if (nat_of_ascii c <? 32)%nat then None
          else
            '(cs, r') ← parse_chars fuel r;
            Some (String c cs, r')
      | EmptyString => None
      end
  end.

Definition parse_string (s : string) : option (string * string) :=
  match s with
  | String c r => if Ascii.eqb c dquote then parse_chars (String.length s) r else None
  | EmptyString => None
  end.

Definition head_is (c : ascii) (s : string) : option string :=
  match s with
  | String c' r => if Ascii.eqb c c' then Some r else None
  | EmptyString => None
  end.

Fixpoint parse_value (fuel : nat) (s : string) : option (Json * string) :=
  match fuel with
  | O => None
  | S fuel =>
      let s := skip_ws s in
      match s with
      | String c r =>
          if Ascii.eqb c "n" then r' ← strip_prefix "null" s; Some (JNull, r')
          else if Ascii.eqb c "t" then r' ← strip_prefix "true" s; Some (JBool true, r')
          else if Ascii.eqb c "f" then r' ← strip_prefix "false" s; Some (JBool false, r')
          else if Ascii.eqb c dquote then
            '(x, r') ← parse_string s; Some (JString x, r')
          else if Ascii.eqb c "-" then
            '(n, r') ← parse_nat r; Some (JNumber (- n), r')
          else if Ascii.eqb c "[" then
            let r := skip_ws r in
            match head_is "]" r with
            | Some r' => Some (JArray [], r')
            | None => '(items, r') ← parse_elements fuel r; Some (JArray items, r')
            end
          else if Ascii.eqb c "{" then
            let r := skip_ws r in
            match head_is "}" r with
            | Some r' => Some (JObject [], r')
            | None => '(members, r') ← parse_members fuel r; Some (JObject members, r')
            end
          else '(n, r') ← parse_nat s; Some (JNumber n, r')
      | EmptyString => None
      end
  end
with parse_elements (fuel : nat) (s : string) : option (list Json * string) :=
  match fuel with
  | O => None
  | S fuel =>
      '(v, r) ← parse_value fuel s;
      let r := skip_ws r in
      match head_is "," r with
      | Some r' => '(vs, r'') ← parse_elements fuel r'; Some (v :: vs, r'')
      | None => r' ← head_is "]" r; Some ([v], r')
      end
  end
with parse_members (fuel : nat) (s : string) : option (list (string * Json) * string) :=
  match fuel with
  | O => None
  | S fuel =>
      '(k, r) ← parse_string (skip_ws s);
      r ← head_is ":" (skip_ws r);
      '(v, r) ← parse_value fuel r;
      let r := skip_ws r in
      match head_is "," r with
      | Some r' => '(kvs, r'') ← parse_members fuel r'; Some ((k, v) :: kvs, r'')
      | None => r' ← head_is "}" r; Some ([(k, v)], r')
      end
  end.

Definition SyntaxError : JsError :=
  mkError "SyntaxError" "Unexpected token in JSON".

Definition parse (text : string) : Outcome Json :=
  match parse_value (2 * String.length text + 2) text with
  | Some (v, r) =>
      match skip_ws r with
      | EmptyString => Returns v
      | _ => Throws SyntaxError
      end
  | None => Throws SyntaxError
  end.

#[global] Instance codec : Codec Json := {
  JSON_stringify v := Returns (Some (stringify v));
  JSON_parse := parse;
}.

(** *** Vocabulary of the round trip *)

Definition is_digit (c : ascii) : bool :=
  match digit_value c with Some _ => true | None => false end.

(** What may follow a number text. *)
Definition terminated (s : string) : Prop :=
  match s with
  | EmptyString => True
  | String c _ => is_digit c = false /\ starts_fraction s = false
  end.

(** Only whitespace. *)
Fixpoint blank (s : string) : bool :=
  match s with
  | EmptyString => true
  | String c r => is_ws c && blank r
  end.

(** The fuel reading a value back takes. *)
Fixpoint need (v : Json) : nat :=
  match v with
  | JArray items => S (foldr (fun v n => S (Nat.max (need v) n)) 0%nat items)
  | JObject members => S (foldr (fun kv n => S (Nat.max (need (snd kv)) n)) 0%nat members)
  | _ => 1
  end.

(** A text that opens with a character no separator or closing bracket
    is made of. *)
Definition opens (s : string) : Prop :=
  match s with
  | EmptyString => False
  | String c _ =>
      is_ws c = false /\ Ascii.eqb "]" c = false /\ Ascii.eqb "}" c = false
      /\ Ascii.eqb "," c = false
  end.

(** The text of one member of an object. *)
Definition member (inner : string) (kv : string * Json) : string :=
  quote (fst kv) +:+ ": " +:+ serialize inner (snd kv).

(** The text of [v], at any indentation and before any text that may
    follow a value, reads back as [v]. *)
Definition reads (v : Json) : Prop :=
  forall indent rest fuel,
    blank indent = true -> terminated rest -> (need v <= fuel)%nat ->
    parse_value fuel (serialize indent v +:+ rest) = Some (v, rest).

End MiniJSON.

(** ** Observable effects *)

Inductive Level : Type := LInfo | LError | LWarn.

Inductive FsOp : Type := OpStat | OpReadFile | OpWriteFile.

(** What the process does that an observer (the logger, a spy on a method,
    the operating system) can see, oldest first. *)
Inductive Effect : Type :=
| Logged (lvl : Level) (msg : string)
| Called (self : nat) (method : string)
| FsCall (op : FsOp) (path : string) (ok : bool)
| Exited (code : Z).

Definition Level_eqb (a b : Level) : bool :=
  match a, b with
  | LInfo, LInfo | LError, LError | LWarn, LWarn => true
  | _, _ => false
  end.

Definition is_log (lvl : Level) (e : Effect) : bool :=
  match e with Logged l _ => Level_eqb l lvl | _ => false end.

Definition is_call (self : nat) (m : string) (e : Effect) : bool :=
  match e with
  | Called s m' => Nat.eqb s self && String.eqb m' m
  | _ => false
  end.

Definition is_exit (e : Effect) : bool :=
  match e with Exited _ => true | _ => false end.

Definition is_write (e : Effect) : bool :=
  match e with FsCall OpWriteFile _ _ => true | _ => false end.

Definition count (p : Effect -> bool) (tr : list Effect) : nat :=
  length (List.filter p tr).
Arguments count : simpl never.

(** ** The file system *)

(** A write that fails either never opened the file ([wf_written = None])
    or truncated it and stored a prefix of the data before failing. *)
Record WriteFault : Type := {
  wf_error : JsError;
  wf_written : option nat;
}.

(** Environmental failures (permissions, full disk, a directory in the
    way), per operation and path. *)
Record Faults : Type := {
  stat_fault : string -> option JsError;
  read_fault : string -> option JsError;
  write_fault : string -> option WriteFault;
}.

Definition no_faults : Faults :=
  {| stat_fault := fun _ => None;
     read_fault := fun _ => None;
     write_fault := fun _ => None |}.

Record Stats : Type := { size : nat }.

Definition ENOENT (syscall path : string) : JsError :=
  mkError "Error"
    ("ENOENT: no such file or directory, " +:+ syscall +:+ " '" +:+ path +:+ "'").

Definition ERR_INVALID_ARG_TYPE : JsError :=
  mkError "TypeError"
    "The data argument must be of type string or an instance of Buffer, TypedArray, or DataView. Received undefined".

(** ** The class, its instances and the process state *)

Section CatsaJanga.

Context {T : Type} {codec : Codec T}.

(** [CatsaJangaOptions<T>]. The logger of the options is the recording
    logger of the [World]: [logger.info] and [logger.error] append a
    [Logged] effect and return. *)
Record CatsaJangaOptions : Type := {
  opt_getData : unit -> Outcome T;
  opt_initialData : option T;
  opt_outputFile : string;
}.

(** An instance of the class: the four private fields (less the logger)
    and the identity of the object. [initialData] is [None] when the
    option was left out ([undefined]). *)
Record CatsaJanga : Type := {
  self : nat;
  getData : unit -> Outcome T;
  initialData : option T;
  outputFile : string;
}.

Inductive EventName : Type :=
| SIGINT | SIGTERM | uncaughtException | unhandledRejection.

#[global] Instance EventName_eq_dec : EqDecision EventName.
Proof. solve_decision. Defined.

(** A listener registered by [setupProcessHandlers]: the arrow functions
    of the source close over [this] and over the local variable
    [isShuttingDown], kept here as the address of its cell. The listeners
    of the earlier revision, which has no such variable, carry [None]. *)
Record Listener : Type := {
  l_event : EventName;
  l_this : CatsaJanga;
  l_isShuttingDown : option nat;
}.

Record World : Type := {
  files : gmap string string;
  faults : Faults;
  objects : nat;
  cells : list bool;
  listeners : list Listener;
  trace : list Effect;
  exitCode : option Z;
}.

Definition set_files (f : gmap string string) (w : World) : World :=
  {| files := f; faults := faults w; objects := objects w; cells := cells w;
     listeners := listeners w; trace := trace w; exitCode := exitCode w |}.

Definition emit (e : Effect) (w : World) : World :=
  {| files := files w; faults := faults w; objects := objects w;
     cells := cells w; listeners := listeners w;
     trace := trace w ++ [e]; exitCode := exitCode w |}.

Definition set_cells (c : list bool) (w : World) : World :=
  {| files := files w; faults := faults w; objects := objects w; cells := c;
     listeners := listeners w; trace := trace w; exitCode := exitCode w |}.

Definition set_objects (n : nat) (w : World) : World :=
  {| files := files w; faults := faults w; objects := n; cells := cells w;
     listeners := listeners w; trace := trace w; exitCode := exitCode w |}.

Definition add_listener (l : Listener) (w : World) : World :=
  {| files := files w; faults := faults w; objects := objects w;
     cells := cells w; listeners := listeners w ++ [l];
     trace := trace w; exitCode := exitCode w |}.

Definition set_exitCode (c : Z) (w : World) : World :=
  {| files := files w; faults := faults w; objects := objects w;
     cells := cells w; listeners := listeners w;
     trace := trace w; exitCode := Some c |}.

(** *** [fs.promises] *)

Inductive FsRequest : Type -> Type :=
| Stat (path : string) : FsRequest Stats
| ReadFile (path : string) : FsRequest string
| WriteFile (path : string) (data : option string) : FsRequest unit.

Definition String_take (n : nat) (s : string) : string := String.substring 0 n s.

(** The settlement of an [fs] promise against the file system as it is
    when the operation runs. *)
Definition fs_perform {X : Type} (rq : FsRequest X) (w : World) : Outcome X * World :=
  match rq in FsRequest X return Outcome X * World with
  | Stat path =>
      match stat_fault (faults w) path with
      | Some e => (Throws e, emit (FsCall OpStat path false) w)
      | None =>
          match files w !! path with
          | Some text => (Returns {| size := String.length text |},
                          emit (FsCall OpStat path true) w)
          | None => (Throws (ENOENT "stat" path), emit (FsCall OpStat path false) w)
          end
      end
  | ReadFile path =>
      match read_fault (faults w) path with
      | Some e => (Throws e, emit (FsCall OpReadFile path false) w)
      | None =>
          match files w !! path with
          | Some text => (Returns text, emit (FsCall OpReadFile path true) w)
          | None => (Throws (ENOENT "open" path), emit (FsCall OpReadFile path false) w)
          end
      end
  | WriteFile path data =>
      match data with
      | None => (Throws ERR_INVALID_ARG_TYPE, emit (FsCall OpWriteFile path false) w)
      | Some text =>
          match write_fault (faults w) path with
          | Some wf =>
              (Throws (wf_error wf),
               emit (FsCall OpWriteFile path false)
                 (match wf_written wf with
                  | None => w
                  | Some n => set_files (<[path := String_take n text]> (files w)) w
                  end))
          | None =>
              (Returns tt,
               emit (FsCall OpWriteFile path true)
                 (set_files (<[path := text]> (files w)) w))
          end
      end
  end.

(** ** Asynchronous computations

    A method body is a tree: [Sync] is a step that runs to completion on
    the process state, [Await] is a suspension on an [fs] promise, [Exit]
    is [process.exit], after which nothing of the process runs. *)
Inductive Async (A : Type) : Type :=
| Ret (a : A)
| Throw (e : JsError)
| Sync {X : Type} (op : World -> X * World) (k : X -> Async A)
| Await {X : Type} (rq : FsRequest X) (k : Outcome X -> Async A)
| Exit (code : Z).
Arguments Ret {A} a.
Arguments Throw {A} e.
Arguments Sync {A X} op k.
Arguments Await {A X} rq k.
Arguments Exit {A} code.

Fixpoint bind {A B : Type} (m : Async A) (f : A -> Async B) : Async B :=
  match m with
  | Ret a => f a
  | Throw e => Throw e
  | Sync op k => Sync op (fun x => bind (k x) f)
  | Await rq k => Await rq (fun r => bind (k r) f)
  | Exit c => Exit c
  end.

(** [try { m } catch (error) { h error }]. [process.exit] is not an
    exception and passes through. *)
Fixpoint try_catch {A : Type} (m : Async A) (h : JsError -> Async A) : Async A :=
  match m with
  | Ret a => Ret a
  | Throw e => h e
  | Sync op k => Sync op (fun x => try_catch (k x) h)
  | Await rq k => Await rq (fun r => try_catch (k r) h)
  | Exit c => Exit c
  end.

#[local] Instance Async_ret : MRet Async := @Ret.
#[local] Instance Async_bind : MBind Async := fun A B f m => bind m f.

(** A synchronous call that returns or throws. *)
Definition call {A : Type} (o : Outcome A) : Async A :=
  match o with Returns a => Ret a | Throws e => Throw e end.

(** [await promise]: suspend, then continue with the value or rethrow the
    rejection. *)
Definition await {X : Type} (rq : FsRequest X) : Async X := Await rq call.

(** [await promise.catch(() => fallback)]. *)
Definition await_catch {X : Type} (rq : FsRequest X) (fallback : X + bool)
  : Async (X + bool) :=
  Await rq (fun r => match r with
                     | Returns x => Ret (inl x)
                     | Throws _ => Ret fallback
                     end).

(** [!!v] for [v : Stats | boolean]: an object is truthy. *)
Definition truthy (v : Stats + bool) : bool :=
  match v with inl _ => true | inr b => b end.

Definition logger_info (msg : string) : Async unit :=
  Sync (fun w => (tt, emit (Logged LInfo msg) w)) Ret.

Definition logger_error (msg : string) : Async unit :=
  Sync (fun w => (tt, emit (Logged LError msg) w)) Ret.

(** A spy on a method of one object, as [spyOn(saver, 'saveProgress')] in
    the test suite: it records the call and changes nothing else. It is
    the only part of a method body below that is not in the source. *)
Definition spy (this : CatsaJanga) (method : string) : Async unit :=
  Sync (fun w => (tt, emit (Called (self this) method) w)) Ret.

(** ** The checkpoint store *)

Definition restore (this : CatsaJanga) : Async (option T) :=
  try_catch
    (st ← await_catch (Stat (outputFile this)) (inr false);
     let fileExists := truthy st in
     if negb fileExists then Ret (initialData this)
     else
       try_catch
         (text ← await (ReadFile (outputFile this));
          restoredData ← call (JSON_parse text);
          logger_info "Progress data successfully restored";;
          Ret (Some restoredData))
         (fun error =>
            logger_error ("Error restoring progress: " +:+ Error_toString error);;
            Ret (initialData this)))
    (fun error =>
       logger_error ("Error checking file existence: " +:+ Error_toString error);;
       Ret (initialData this)).

Definition saveProgress (this : CatsaJanga) : Async unit :=
  spy this "saveProgress";;
  try_catch
    (logger_info ("Saving progress to " +:+ outputFile this +:+ "...");;
     data ← call (getData this ());
     text ← call (JSON_stringify data);
     await (WriteFile (outputFile this) text))
    (fun error =>
       logger_error ("Error saving progress: " +:+ Error_toString error)).

(** ** The shutdown coordinator *)

Definition new_cell (b : bool) : Async nat :=
  Sync (fun w => (length (cells w), set_cells (cells w ++ [b]) w)) Ret.

Definition read_cell (a : nat) : Async bool :=
  Sync (fun w => (default false (cells w !! a), w)) Ret.

Definition write_cell (a : nat) (b : bool) : Async unit :=
  Sync (fun w => (tt, set_cells (<[a := b]> (cells w)) w)) Ret.

Definition process_on (ev : EventName) (this : CatsaJanga) (cell : option nat)
  : Async unit :=
  Sync (fun w => (tt, add_listener
                        {| l_event := ev; l_this := this; l_isShuttingDown := cell |} w))
       Ret.

Definition process_exit {A : Type} (code : Z) : Async A := Exit code.

(** The closure [handleExit] of [setupProcessHandlers], with its captured
    [this] and [isShuttingDown]. *)
Definition handleExit (this : CatsaJanga) (isShuttingDown : nat)
    (signal : string) (exitCode : Z) : Async unit :=
  shuttingDown ← read_cell isShuttingDown;
  if shuttingDown : bool then Ret tt
  else
    write_cell isShuttingDown true;;
    logger_info ("Process " +:+ signal +:+ ". Saving progress...");;
    saveProgress this;;
    process_exit exitCode.

Definition setupProcessHandlers (this : CatsaJanga) : Async unit :=
  isShuttingDown ← new_cell false;
  process_on SIGINT this (Some isShuttingDown);;
  process_on SIGTERM this (Some isShuttingDown);;
  process_on uncaughtException this (Some isShuttingDown);;
  process_on unhandledRejection this (Some isShuttingDown).

Definition alloc (options : CatsaJangaOptions) : Async CatsaJanga :=
  Sync (fun w => ({| self := objects w;
                     getData := opt_getData options;
                     initialData := opt_initialData options;
                     outputFile := opt_outputFile options |},
                  set_objects (S (objects w)) w)) Ret.

(** [new CatsaJanga(options)]. *)
Definition new_CatsaJanga (options : CatsaJangaOptions) : Async CatsaJanga :=
  this ← alloc options;
  setupProcessHandlers this;;
  Ret this.

(** *** The earlier revision: no guard, and the static factory *)

Definition handleExit_v1 (this : CatsaJanga) (signal : string) (exitCode : Z)
  : Async unit :=
  logger_info ("Process " +:+ signal +:+ ". Saving progress...");;
  saveProgress this;;
  process_exit exitCode.

Definition setupProcessHandlers_v1 (this : CatsaJanga) : Async unit :=
  process_on SIGINT this None;;
  process_on SIGTERM this None;;
  process_on uncaughtException this None;;
  process_on unhandledRejection this None.

Definition new_CatsaJanga_v1 (options : CatsaJangaOptions) : Async CatsaJanga :=
  this ← alloc options;
  setupProcessHandlers_v1 this;;
  Ret this.

(** [CatsaJanga.createWithRestore(options)]; the record [{ data, saver }]
    is the pair. [data] is typed [T] in the source but is [undefined] when
    neither a checkpoint nor initial data exists. *)
Definition createWithRestore (options : CatsaJangaOptions)
  : Async (CatsaJanga * option T) :=
  saver ← new_CatsaJanga_v1 options;
  restoredData ← restore saver;
  let data := match restoredData with
              | Some d => Some d
              | None => opt_initialData options
              end in
  Ret (saver, data).

(** ** Events and listeners *)

(** What the process is notified of. *)
Inductive Event : Type :=
| Interrupt
| Terminate
| UncaughtException (error : JsError)
| UnhandledRejection (reason : JsError).

Definition event_name (ev : Event) : EventName :=
  match ev with
  | Interrupt => SIGINT
  | Terminate => SIGTERM
  | UncaughtException _ => uncaughtException
  | UnhandledRejection _ => unhandledRejection
  end.

(** The four arrow functions passed to [process.on], applied to the
    argument of the event they were registered for. *)
Definition listener (l : Listener) (ev : Event) : Async unit :=
  let handleExit :=
    match l_isShuttingDown l with
    | Some cell => handleExit (l_this l) cell
    | None => handleExit_v1 (l_this l)
    end in
  match l_event l, ev with
  | SIGINT, Interrupt => handleExit "interrupted (SIGINT)" 0%Z
  | SIGTERM, Terminate => handleExit "terminated (SIGTERM)" 0%Z
  | uncaughtException, UncaughtException error =>
      logger_error ("Uncaught exception: " +:+ message error);;
      handleExit "crashed with uncaught exception" 1%Z
  | unhandledRejection, UnhandledRejection reason =>
      logger_error ("Unhandled promise rejection: " +:+ Error_toString reason);;
      handleExit "crashed with unhandled rejection" 1%Z
  | _, _ => Ret tt
  end.

(** ** Running

    A direct call from the caller, with nothing else of the process
    interleaved: every [fs] promise settles when it is awaited. *)
Inductive Completion (A : Type) : Type :=
| Normal (a : A)
| Abrupt (e : JsError)
| ProcessExit (code : Z).
Arguments Normal {A} a.
Arguments Abrupt {A} e.
Arguments ProcessExit {A} code.

Definition exit_world (code : Z) (w : World) : World :=
  set_exitCode code (emit (Exited code) w).

Fixpoint run {A : Type} (m : Async A) (w : World) : Completion A * World :=
  match m with
  | Ret a => (Normal a, w)
  | Throw e => (Abrupt e, w)
  | Sync op k => let '(x, w') := op w in run (k x) w'
  | Await rq k => let '(r, w') := fs_perform rq w in run (k r) w'
  | Exit c => (ProcessExit c, exit_world c w)
  end.

(** *** The event loop

    The process with its suspended tasks. A task runs without
    interruption up to its next [Await] ([advance]); the loop then either
    delivers an event to its listeners or settles the promise of one
    suspended task and resumes it. *)
Record Process : Type := {
  world : World;
  pending : list (Async unit);
}.

Fixpoint advance {A : Type} (m : Async A) (w : World) : Async A * World :=
  match m with
  | Sync op k => let '(x, w') := op w in advance (k x) w'
  | Exit c => (Exit c, exit_world c w)
  | _ => (m, w)
  end.

Definition is_suspended {A : Type} (m : Async A) : bool :=
  match m with Await _ _ => true | _ => false end.

Definition spawn (m : Async unit) (p : Process) : Process :=
  match exitCode (world p) with
  | Some _ => p
  | None =>
      let '(m', w') := advance m (world p) in
      {| world := w';
         pending := if is_suspended m' then pending p ++ [m'] else pending p |}
  end.

(** [process.emit]: the listeners of the event run in registration order,
    each up to its first suspension. *)
Definition deliver (ev : Event) (p : Process) : Process :=
  foldl (fun p l => spawn (listener l ev) p) p
        (filter (fun l => l_event l = event_name ev) (listeners (world p))).

(** The promise the [i]-th suspended task waits for settles. *)
Definition settle (i : nat) (p : Process) : Process :=
  match exitCode (world p), pending p !! i with
  | None, Some (Await rq k) =>
      let '(r, w') := fs_perform rq (world p) in
      spawn (k r) {| world := w'; pending := delete i (pending p) |}
  | _, _ => p
  end.

Inductive Step : Type :=
| Deliver (ev : Event)
| Settle (i : nat).

Definition step (st : Step) (p : Process) : Process :=
  match st with
  | Deliver ev => deliver ev p
  | Settle i => settle i p
  end.

Definition exec (sched : list Step) (p : Process) : Process :=
  foldl (fun p st => step st p) p sched.

(** A process that has just started: nothing registered, nothing logged. *)
Definition boot (fs : gmap string string) (flt : Faults) : World :=
  {| files := fs; faults := flt; objects := 0; cells := []; listeners := [];
     trace := []; exitCode := None |}.

(** The instance [new CatsaJanga(options)] creates as the object of
    identity [id]. *)
Definition instance (id : nat) (options : CatsaJangaOptions) : CatsaJanga :=
  {| self := id;
     getData := opt_getData options;
     initialData := opt_initialData options;
     outputFile := opt_outputFile options |}.

(** A process whose main program has just run [new CatsaJanga(options)] on
    the given file system. *)
Definition started (options : CatsaJangaOptions) (fs : gmap string string)
    (flt : Faults) : Process :=
  {| world := snd (run (new_CatsaJanga options) (boot fs flt)); pending := [] |}.

(** The same with the constructor of the earlier revision. *)
Definition started_v1 (options : CatsaJangaOptions) (fs : gmap string string)
    (flt : Faults) : Process :=
  {| world := snd (run (new_CatsaJanga_v1 options) (boot fs flt)); pending := [] |}.

(** ** Vocabulary of the specification *)

(** A snapshot value is JSON-serializable when it has a JSON text and that
    text reads back as the value. *)
Definition JSON_serializable (v : T) : Prop :=
  exists text, JSON_stringify v = Returns (Some text) /\ JSON_parse text = Returns v.

Definition errors_logged (w : World) : nat := count (is_log LError) (trace w).

Definition infos_logged (w : World) : nat := count (is_log LInfo) (trace w).

Definition writes_issued (w : World) : nat := count is_write (trace w).

(** Calls of [saveProgress] on [this] seen by a spy. *)
Definition saves (this : CatsaJanga) (w : World) : nat :=
  count (is_call (self this) "saveProgress") (trace w).

(** Calls of [process.exit]. *)
Definition exits (w : World) : nat := count is_exit (trace w).

(** The status the specification gives each cause of shutdown: [0] for a
    termination signal, [1] for a crash. *)
Definition expected_status (ev : Event) : Z :=
  match ev with
  | Interrupt | Terminate => 0
  | UncaughtException _ | UnhandledRejection _ => 1
  end.

(** The error entry a crash notification is reported with. *)
Definition crash_report (ev : Event) : option string :=
  match ev with
  | UncaughtException error => Some ("Uncaught exception: " +:+ message error)
  | UnhandledRejection reason =>
      Some ("Unhandled promise rejection: " +:+ Error_toString reason)
  | Interrupt | Terminate => None
  end.

(** The cause description [handleExit] is called with. *)
Definition cause (ev : Event) : string :=
  match ev with
  | Interrupt => "interrupted (SIGINT)"
  | Terminate => "terminated (SIGTERM)"
  | UncaughtException _ => "crashed with uncaught exception"
  | UnhandledRejection _ => "crashed with unhandled rejection"
  end.

Definition coordinator_listeners (this : CatsaJanga) (cell : option nat)
  : list Listener :=
  [ {| l_event := SIGINT; l_this := this; l_isShuttingDown := cell |};
    {| l_event := SIGTERM; l_this := this; l_isShuttingDown := cell |};
    {| l_event := uncaughtException; l_this := this; l_isShuttingDown := cell |};
    {| l_event := unhandledRejection; l_this := this; l_isShuttingDown := cell |} ].

(** A suspended continuation that, whatever its promise settles to, logs
    at most one error and calls [process.exit c]. *)
Definition resumes_to_exit (c : Z) (k : Outcome unit -> Async unit) : Prop :=
  forall r w, exists w',
    advance (k r) w = (Exit c, exit_world c w')
    /\ (w' = w \/ exists msg, w' = emit (Logged LError msg) w).

(** What a crash handler does before it calls [handleExit]. *)
Definition reported (ev : Event) (w : World) : World :=
  match crash_report ev with
  | Some msg => emit (Logged LError msg) w
  | None => w
  end.

(** The world in which [handleExit], having passed the guard at [cell],
    calls [saveProgress]. *)
Definition entering (cell : nat) (signal : string) (w : World) : World :=
  emit (Logged LInfo ("Process " +:+ signal +:+ ". Saving progress..."))
       (set_cells (<[cell := true]> (cells w)) w).

(** The state [Active] of the coordinator of [this]: registered, guard
    unset, nothing saved, nothing in flight. *)
Definition Active (this : CatsaJanga) (p : Process) : Prop :=
  listeners (world p) = coordinator_listeners this (Some 0)
  /\ cells (world p) = [false]
  /\ exitCode (world p) = None
  /\ pending p = []
  /\ saves this (world p) = 0
  /\ exits (world p) = 0.

(** The state [ShuttingDown] of the coordinator of [this], entered for a
    cause of status [c]: the guard is set and [saveProgress] was called
    once; either the write is in flight and the process alive, or the
    process has exited. *)
Definition ShuttingDown (this : CatsaJanga) (c : Z) (p : Process) : Prop :=
  listeners (world p) = coordinator_listeners this (Some 0)
  /\ cells (world p) = [true]
  /\ saves this (world p) = 1
  /\ ((exitCode (world p) = None /\ exits (world p) = 0
       /\ exists data k,
            pending p = [Await (WriteFile (outputFile this) data) k]
            /\ resumes_to_exit c k)
      \/ (exitCode (world p) = Some c /\ exits (world p) = 1 /\ pending p = [])).

(** ** Further vocabulary *)

(** Entries of either level the logger received. *)
Definition entries_logged (w : World) : nat := infos_logged w + errors_logged w.

(** A process whose main program has constructed two stores, one after
    the other. *)
Definition started_two (options1 options2 : CatsaJangaOptions)
    (fs : gmap string string) (flt : Faults) : Process :=
  {| world := snd (run (new_CatsaJanga options2)
                       (snd (run (new_CatsaJanga options1) (boot fs flt))));
     pending := [] |}.

End CatsaJanga.

Arguments CatsaJangaOptions : clear implicits.
Arguments CatsaJanga : clear implicits.
Arguments Listener : clear implicits.
Arguments World : clear implicits.
Arguments Process : clear implicits.
Arguments Async : clear implicits.
Arguments Ret {T A} a.
Arguments Throw {T A} e.
Arguments Sync {T A X} op k.
Arguments Await {T A X} rq k.
Arguments Exit {T A} code.
Arguments Normal {A} a.
Arguments Abrupt {A} e.
Arguments ProcessExit {A} code.
#[global] Existing Instances Async_ret Async_bind.

(** ** Scenarios

    The data of the end-to-end scenarios of the test suite, over the
    reference codec. *)
Module Scenario.

Import MiniJSON.

Definition testData : Json :=
  JObject [("items", JArray [JNumber 1; JNumber 2; JNumber 3]);
           ("value", JString "test")].

Definition fallback : Json := JObject [("fallback", JBool true)].

Definition tempFile : string := "/tmp/catsa-janga-test.json".

Definition corrupt : string := "{ this is not valid JSON }".

Definition options : CatsaJangaOptions Json :=
  {| opt_getData := fun _ => Returns testData;
     opt_initialData := Some fallback;
     opt_outputFile := tempFile |}.

Definition unavailable : JsError := mkError "Error" "snapshot unavailable".

(** A provider that raises. *)
Definition failing_options : CatsaJangaOptions Json :=
  {| opt_getData := fun _ => Throws unavailable;
     opt_initialData := Some fallback;
     opt_outputFile := tempFile |}.

Definition saver : CatsaJanga Json := instance 0 options.

Definition EACCES (syscall path : string) : JsError :=
  mkError "Error"
    ("EACCES: permission denied, " +:+ syscall +:+ " '" +:+ path +:+ "'").

(** The checkpoint path cannot be written. *)
Definition unwritable : Faults :=
  {| stat_fault := fun _ => None;
     read_fault := fun _ => None;
     write_fault := fun path =>
       Some {| wf_error := EACCES "open" path; wf_written := None |} |}.

(** The checkpoint path cannot be examined. *)
Definition unsearchable : Faults :=
  {| stat_fault := fun path => Some (EACCES "stat" path);
     read_fault := fun path => Some (EACCES "open" path);
     write_fault := fun _ => None |}.

(** No checkpoint file yet. *)
Definition cold : World Json := boot ∅ no_faults.

(** A checkpoint file that is not JSON. *)
Definition corrupted : World Json := boot {[ tempFile := corrupt ]} no_faults.

Definition readonly : World Json := boot ∅ unwritable.

(** A checkpoint file exists, but [fs.stat] on it is refused. *)
Definition denied : World Json :=
  boot {[ tempFile := stringify testData ]} unsearchable.

(** A second store on the same path, with nothing else in common. *)
Definition reader : CatsaJanga Json :=
  {| self := 1;
     getData := fun _ => Returns JNull;
     initialData := None;
     outputFile := tempFile |}.

Definition boom : JsError := mkError "Error" "boom".

(** A checkpoint file written by an earlier run. *)
Definition saved : World Json := boot {[ tempFile := stringify testData ]} no_faults.

(** The checkpoint path can be examined but not opened for reading. *)
Definition unreadable : Faults :=
  {| stat_fault := fun _ => None;
     read_fault := fun path => Some (EACCES "open" path);
     write_fault := fun _ => None |}.

Definition locked : World Json :=
  boot {[ tempFile := stringify testData ]} unreadable.

(** A second store of the same process, on a path of its own. *)
Definition other_options : CatsaJangaOptions Json :=
  {| opt_getData := fun _ => Returns fallback;
     opt_initialData := None;
     opt_outputFile := "/tmp/catsa-janga-other.json" |}.

(** Snapshots that may be [undefined]: [JSON.stringify(undefined)] returns
    [undefined], not a text. *)
#[export] Instance optional_codec : Codec (option Json) := {
  JSON_stringify v := Returns (stringify <$> v);
  JSON_parse text :=
    match parse text with
    | Returns v => Returns (Some v)
    | Throws e => Throws e
    end;
}.

(** A provider that returns [undefined]. *)
Definition undefined_options : CatsaJangaOptions (option Json) :=
  {| opt_getData := fun _ => Returns None;
     opt_initialData := None;
     opt_outputFile := tempFile |}.

Definition cold_optional : World (option Json) := boot ∅ no_faults.

End Scenario.

(** * Properties *)

(** ** The reference codec: reading is the inverse of writing *)

Module MiniJSON_facts.

Import MiniJSON.
Local Open Scope Z_scope.

#[local] Arguments String.append !s1 s2.

Lemma append_assoc (a b c : string) : (a +:+ b) +:+ c = a +:+ (b +:+ c).
Proof. induction a as [|x a IH]; simpl; congruence. Qed.

Lemma append_nil_r (a : string) : a +:+ "" = a.
Proof. induction a as [|x a IH]; simpl; congruence. Qed.

Lemma length_append (a b : string) :
  String.length (a +:+ b) = (String.length a + String.length b)%nat.
Proof. induction a as [|x a IH]; simpl; congruence. Qed.

(** *** Numbers *)

Lemma digit_value_pretty_N_char (x : N) :
  (x < 10)%N -> digit_value (pretty_N_char x) = Some (Z.of_N x).
Proof.
  intros Hx.
  assert (x = 0 \/ x = 1 \/ x = 2 \/ x = 3 \/ x = 4 \/ x = 5 \/ x = 6 \/ x = 7
          \/ x = 8 \/ x = 9)%N as Hc by lia.
  by repeat destruct Hc as [->|Hc]; [..|subst x].
Qed.

Lemma parse_digits_pretty_N_go (x : N) (s rest : string) :
  parse_digits 0 (pretty_N_go x s +:+ rest) = parse_digits (Z.of_N x) (s +:+ rest).
Proof.
  revert s. induction (N.lt_wf_0 x) as [x _ IH]; intros s.
  assert (x = 0 \/ 0 < x)%N as [->|Hx] by lia; [done|].
  rewrite pretty_N_go_step by done.
  rewrite IH by (by apply N.div_lt). cbn.
  rewrite digit_value_pretty_N_char by (by apply N.mod_lt).
  f_equal. rewrite (N.div_mod x 10) at 3 by done. lia.
Qed.

Lemma pretty_N_go_head (x : N) (s : string) :
  (0 < x)%N ->
  exists y t, (0 < y < 10)%N /\ pretty_N_go x s = String (pretty_N_char y) t.
Proof.
  revert s. induction (N.lt_wf_0 x) as [x _ IH]; intros s Hx.
  rewrite pretty_N_go_step by done.
  assert (x < 10 \/ 10 <= x)%N as [Hlt|Hge] by lia.
  - rewrite N.div_small by done. rewrite pretty_N_go_0.
    exists (x `mod` 10)%N, s. split; [|done].
    rewrite N.mod_small by done. lia.
  - apply IH; [by apply N.div_lt|].
    apply N.div_str_pos. lia.
Qed.

Lemma parse_digits_terminated (acc : Z) (rest : string) :
  terminated rest -> parse_digits acc rest = (acc, rest).
Proof.
  destruct rest as [|c r]; [done|]. intros [Hd _]. cbn.
  unfold is_digit in Hd. by destruct (digit_value c).
Qed.

Lemma parse_nat_pretty (p : positive) (rest : string) :
  terminated rest ->
  parse_nat (pretty (N.pos p) +:+ rest) = Some (Z.pos p, rest).
Proof.
  intros Hrest. unfold pretty, pretty_N.
  destruct (decide (N.pos p = 0%N)) as [|_]; [done|].
  pose proof (parse_digits_pretty_N_go (N.pos p) "" rest) as Hd.
  destruct (pretty_N_go_head (N.pos p) "" eq_refl) as (y & t & Hy & Ht).
  rewrite Ht in *. cbn in Hd |- *.
  rewrite digit_value_pretty_N_char in * by lia.
  rewrite (parse_digits_terminated _ rest Hrest) in Hd.
  replace (10 * 0 + Z.of_N y) with (Z.of_N y) in Hd by lia.
  destruct (Z.of_N y) eqn:Hz; [lia| |lia].
  rewrite Hd.
  destruct rest as [|c r]; [done|]. destruct Hrest as [_ ->]. done.
Qed.

(** *** Strings *)

Lemma parse_chars_quote_char (c : ascii) (t : string) (fuel : nat) :
  parse_chars (S fuel) (quote_char c +:+ t)
  = '(cs, r) ← parse_chars fuel t; Some (String c cs, r).
Proof.
  destruct c as [[] [] [] [] [] [] [] []]; reflexivity.
Qed.

Lemma parse_chars_quote_chars (s rest : string) (fuel : nat) :
  (String.length s < fuel)%nat ->
  parse_chars fuel (quote_chars s +:+ String dquote rest) = Some (s, rest).
Proof.
  revert fuel. induction s as [|c s IH]; intros [|fuel] Hf; cbn in Hf; try lia.
  - done.
  - cbn [quote_chars]. rewrite append_assoc, parse_chars_quote_char.
    rewrite IH by lia. done.
Qed.

Lemma length_quote_char (c : ascii) : (1 <= String.length (quote_char c))%nat.
Proof. destruct c as [[] [] [] [] [] [] [] []]; vm_compute; lia. Qed.

Lemma length_quote_chars (s : string) :
  (String.length s <= String.length (quote_chars s))%nat.
Proof.
  induction s as [|c s IH]; cbn; [done|].
  rewrite length_append. pose proof (length_quote_char c). lia.
Qed.

Lemma parse_string_quote (s rest : string) :
  parse_string (quote s +:+ rest) = Some (s, rest).
Proof.
  unfold quote, str. rewrite !append_assoc.
  change (parse_chars
            (S (String.length (quote_chars s +:+ String dquote rest)))
            (quote_chars s +:+ String dquote rest) = Some (s, rest)).
  apply parse_chars_quote_chars.
  rewrite length_append. pose proof (length_quote_chars s). lia.
Qed.

(** *** Whitespace *)

Lemma skip_ws_blank (b t : string) : blank b = true -> skip_ws (b +:+ t) = skip_ws t.
Proof.
  induction b as [|c b IH]; cbn; [done|].
  intros [Hc Hb]%andb_true_iff. rewrite Hc. by apply IH.
Qed.

Lemma blank_append (a b : string) :
  blank a = true -> blank b = true -> blank (a +:+ b) = true.
Proof.
  induction a as [|c a IH]; cbn; [done|].
  intros [Hc Ha]%andb_true_iff Hb. rewrite Hc. by apply IH.
Qed.

(** *** Values *)

Lemma Json_nested_ind (P : Json -> Prop) :
  P JNull ->
  (forall b, P (JBool b)) ->
  (forall n, P (JNumber n)) ->
  (forall s, P (JString s)) ->
  (forall items, Forall P items -> P (JArray items)) ->
  (forall members, Forall (fun kv => P (snd kv)) members -> P (JObject members)) ->
  forall v, P v.
Proof.
  intros Hnull Hbool Hnum Hstr Harr Hobj.
  fix IH 1. intros [|b|n|s|items|members].
  - exact Hnull.
  - apply Hbool.
  - apply Hnum.
  - apply Hstr.
  - apply Harr. induction items as [|v items IHl]; constructor; [apply IH|exact IHl].
  - apply Hobj.
    induction members as [|[k v] members IHl]; constructor; [apply IH|exact IHl].
Qed.

Lemma skip_ws_opens (s : string) : opens s -> skip_ws s = s.
Proof. destruct s as [|c r]; [done|]. intros [Hc _]. cbn. by rewrite Hc. Qed.

Lemma head_is_opens (s : string) :
  opens s -> head_is "]" s = None /\ head_is "}" s = None /\ head_is "," s = None.
Proof.
  destruct s as [|c r]; [done|]. intros (_ & H1 & H2 & H3). unfold head_is.
  by rewrite H1, H2, H3.
Qed.

Lemma pretty_pos_opens (p : positive) (t : string) :
  exists c r, pretty (N.pos p) +:+ t = String c r /\ is_digit c = true.
Proof.
  unfold pretty, pretty_N. destruct (decide (N.pos p = 0%N)) as [|_]; [done|].
  destruct (pretty_N_go_head (N.pos p) "" eq_refl) as (y & r & Hy & ->).
  exists (pretty_N_char y), (r +:+ t). split; [done|].
  unfold is_digit. by rewrite digit_value_pretty_N_char by lia.
Qed.

Lemma is_digit_opens (c : ascii) (r : string) : is_digit c = true -> opens (String c r).
Proof.
  destruct c as [[] [] [] [] [] [] [] []]; try discriminate; by intros _.
Qed.

Lemma serialize_opens (indent : string) (v : Json) (t : string) :
  opens (serialize indent v +:+ t).
Proof.
  destruct v as [|[]|[|p|p]|s|[|v items]|[|kv members]]; try done.
  cbn [serialize]. change (pretty (Z.pos p)) with (pretty (N.pos p)).
  destruct (pretty_pos_opens p t) as (c & r & -> & Hc). by apply is_digit_opens.
Qed.

Lemma parse_value_skip (fuel : nat) (ws t : string) :
  blank ws = true -> parse_value fuel (ws +:+ t) = parse_value fuel t.
Proof.
  intros Hws. destruct fuel as [|fuel]; [done|].
  cbn [parse_value]. by rewrite skip_ws_blank.
Qed.

Lemma parse_value_number (fuel : nat) (c : ascii) (r : string) :
  is_digit c = true ->
  parse_value (S fuel) (String c r)
  = '(n, r') ← parse_nat (String c r); Some (JNumber n, r').
Proof.
  destruct c as [[] [] [] [] [] [] [] []]; try discriminate; by intros _.
Qed.

Lemma parse_elements_S (fuel : nat) (s : string) :
  parse_elements (S fuel) s
  = '(v, r) ← parse_value fuel s;
    let r := skip_ws r in
    match head_is "," r with
    | Some r' => '(vs, r'') ← parse_elements fuel r'; Some (v :: vs, r'')
    | None => r' ← head_is "]" r; Some ([v], r')
    end.
Proof. done. Qed.

Lemma parse_members_S (fuel : nat) (s : string) :
  parse_members (S fuel) s
  = '(k, r) ← parse_string (skip_ws s);
    r ← head_is ":" (skip_ws r);
    '(v, r) ← parse_value fuel r;
    let r := skip_ws r in
    match head_is "," r with
    | Some r' => '(kvs, r'') ← parse_members fuel r'; Some ((k, v) :: kvs, r'')
    | None => r' ← head_is "}" r; Some ([(k, v)], r')
    end.
Proof. done. Qed.

Lemma terminated_newline (t : string) : terminated (str newline +:+ t).
Proof. done. Qed.

Lemma terminated_comma (t : string) : terminated ("," +:+ t).
Proof. done. Qed.

Lemma skip_ws_line (indent t : string) :
  blank indent = true -> skip_ws (str newline +:+ indent +:+ t) = skip_ws t.
Proof. intros Hb. cbn. by apply skip_ws_blank. Qed.

Lemma parse_value_line (fuel : nat) (indent t : string) :
  blank indent = true ->
  parse_value fuel (str newline +:+ indent +:+ t) = parse_value fuel t.
Proof.
  intros Hb. rewrite <- append_assoc. apply parse_value_skip.
  by apply blank_append.
Qed.

Lemma join_cons (sep x y : string) (l : list string) :
  join sep (x :: y :: l) = x +:+ sep +:+ join sep (y :: l).
Proof. done. Qed.

Lemma parse_elements_line (fuel : nat) (indent t : string) :
  blank indent = true ->
  parse_elements fuel (str newline +:+ indent +:+ t) = parse_elements fuel t.
Proof.
  intros Hb. destruct fuel as [|fuel]; [done|].
  by rewrite !parse_elements_S, parse_value_line.
Qed.

Lemma parse_elements_join (inner indent rest : string) (items : list Json) :
  Forall reads items -> items <> [] ->
  blank inner = true -> blank indent = true ->
  forall fuel,
    (foldr (fun v n => S (Nat.max (need v) n)) 0%nat items <= fuel)%nat ->
    parse_elements fuel
      (join ("," +:+ str newline +:+ inner) (map (serialize inner) items)
       +:+ str newline +:+ indent +:+ "]" +:+ rest)
    = Some (items, rest).
Proof.
  intros Hall Hne Hinner Hindent.
  induction Hall as [|v items Hv Hall IH]; [done|]. clear Hne.
  intros [|fuel] Hf; cbn [foldr] in Hf; [lia|].
  rewrite parse_elements_S.
  destruct items as [|v' items].
  - cbn [map join].
    rewrite Hv by (done || apply terminated_newline || cbn in Hf; lia).
    cbn [mbind option_bind].
    rewrite skip_ws_line by done. by cbn.
  - specialize (IH ltac:(done) fuel ltac:(lia)).
    change (map (serialize inner) (v :: v' :: items))
      with (serialize inner v :: map (serialize inner) (v' :: items)).
    rewrite (join_cons _ _ (serialize inner v')
               (map (serialize inner) items)) by done.
    rewrite !append_assoc.
    rewrite Hv by (done || apply terminated_comma || lia).
    cbn [mbind option_bind].
    change (skip_ws ("," +:+ ?t)) with ("," +:+ t).
    change (head_is "," ("," +:+ ?t)) with (Some t).
    cbv beta iota.
    rewrite parse_elements_line by done.
    change (serialize inner v' :: map (serialize inner) items)
      with (map (serialize inner) (v' :: items)).
    by rewrite IH.
Qed.

Lemma parse_members_line (fuel : nat) (indent t : string) :
  blank indent = true ->
  parse_members fuel (str newline +:+ indent +:+ t) = parse_members fuel t.
Proof.
  intros Hb. destruct fuel as [|fuel]; [done|].
  by rewrite !parse_members_S, skip_ws_line.
Qed.

Lemma parse_member_key (inner : string) (k : string) (v : Json) (t : string) :
  parse_string (skip_ws (member inner (k, v) +:+ t))
  = Some (k, ": " +:+ serialize inner v +:+ t).
Proof.
  unfold member. cbn [fst snd]. rewrite !append_assoc.
  assert (skip_ws (quote k +:+ ": " +:+ serialize inner v +:+ t)
          = quote k +:+ ": " +:+ serialize inner v +:+ t) as ->.
  { unfold quote, str. by rewrite !append_assoc. }
  by rewrite parse_string_quote.
Qed.

Lemma parse_members_join (inner indent rest : string)
    (members : list (string * Json)) :
  Forall (fun kv => reads (snd kv)) members -> members <> [] ->
  blank inner = true -> blank indent = true ->
  forall fuel,
    (foldr (fun kv n => S (Nat.max (need (snd kv)) n)) 0%nat members <= fuel)%nat ->
    parse_members fuel
      (join ("," +:+ str newline +:+ inner) (map (member inner) members)
       +:+ str newline +:+ indent +:+ "}" +:+ rest)
    = Some (members, rest).
Proof.
  intros Hall Hne Hinner Hindent.
  induction Hall as [|[k v] members Hv Hall IH]; [done|]. clear Hne.
  cbn [snd] in Hv.
  intros [|fuel] Hf; cbn [foldr snd] in Hf; [lia|].
  rewrite parse_members_S.
  destruct members as [|kv' members].
  - cbn [map join].
    rewrite parse_member_key. cbn [mbind option_bind].
    change (skip_ws (": " +:+ ?x)) with (": " +:+ x).
    change (head_is ":" (": " +:+ ?x)) with (Some (" " +:+ x)).
    cbn [mbind option_bind].
    rewrite (parse_value_skip fuel " ") by done.
    rewrite Hv by (done || apply terminated_newline || cbn in Hf; lia).
    cbn [mbind option_bind].
    rewrite skip_ws_line by done. by cbn.
  - specialize (IH ltac:(done) fuel ltac:(lia)).
    change (map (member inner) ((k, v) :: kv' :: members))
      with (member inner (k, v) :: map (member inner) (kv' :: members)).
    rewrite (join_cons _ _ (member inner kv') (map (member inner) members)) by done.
    rewrite !append_assoc.
    rewrite parse_member_key. cbn [mbind option_bind].
    change (skip_ws (": " +:+ ?x)) with (": " +:+ x).
    change (head_is ":" (": " +:+ ?x)) with (Some (" " +:+ x)).
    cbn [mbind option_bind].
    rewrite (parse_value_skip fuel " ") by done.
    rewrite Hv by (done || apply terminated_comma || lia).
    cbn [mbind option_bind].
    change (skip_ws ("," +:+ ?t)) with ("," +:+ t).
    change (head_is "," ("," +:+ ?t)) with (Some t).
    cbv beta iota.
    rewrite parse_members_line by done.
    change (member inner kv' :: map (member inner) members)
      with (map (member inner) (kv' :: members)).
    by rewrite IH.
Qed.

Lemma blank_inner (indent : string) : blank indent = true -> blank (indent +:+ gap) = true.
Proof. intros Hb. by apply blank_append. Qed.

Lemma parse_value_array (fuel : nat) (t : string) :
  parse_value (S fuel) ("[" +:+ t)
  = let r := skip_ws t in
    match head_is "]" r with
    | Some r' => Some (JArray [], r')
    | None => '(items, r') ← parse_elements fuel r; Some (JArray items, r')
    end.
Proof. done. Qed.

Lemma parse_value_object (fuel : nat) (t : string) :
  parse_value (S fuel) ("{" +:+ t)
  = let r := skip_ws t in
    match head_is "}" r with
    | Some r' => Some (JObject [], r')
    | None => '(members, r') ← parse_members fuel r; Some (JObject members, r')
    end.
Proof. done. Qed.

Lemma elements_open (sep inner : string) (v : Json) (items : list Json) (t : string) :
  opens (join sep (map (serialize inner) (v :: items)) +:+ t).
Proof.
  destruct items as [|v' items]; cbn [map join];
    rewrite ?append_assoc; apply serialize_opens.
Qed.

Lemma members_open (sep inner : string) (kv : string * Json)
    (members : list (string * Json)) (t : string) :
  opens (join sep (map (member inner) (kv :: members)) +:+ t).
Proof.
  destruct members as [|kv' members]; cbn [map join]; unfold member, quote, str;
    by rewrite !append_assoc.
Qed.

Theorem parse_value_serialize (v : Json) : reads v.
Proof.
  induction v as [|b|n|s|items IH|members IH] using Json_nested_ind;
    intros indent rest [|fuel] Hb Hrest Hf; try (cbn in Hf; lia).
  - done.
  - by destruct b.
  - destruct n as [|p|p]; cbn [serialize].
    + change (pretty 0%Z +:+ rest) with (String "0" rest).
      rewrite (parse_value_number fuel "0") by done.
      destruct rest as [|c r]; [done|]. destruct Hrest as [Hd Hfr].
      cbn. unfold is_digit in Hd. destruct (digit_value c); [done|].
      cbn in Hfr. by rewrite Hfr.
    + change (pretty (Z.pos p)) with (pretty (N.pos p)).
      destruct (pretty_pos_opens p rest) as (c & r & Hcr & Hc).
      rewrite Hcr, parse_value_number, <- Hcr by done.
      by rewrite parse_nat_pretty.
    + change (pretty (Z.neg p)) with ("-" +:+ pretty (N.pos p)).
      rewrite append_assoc.
      change (parse_value (S fuel) ("-" +:+ ?t))
        with ('(n, r') ← parse_nat t; Some (JNumber (- n), r')).
      by rewrite parse_nat_pretty.
  - cbn [serialize].
    assert (exists r, quote s +:+ rest = String dquote r) as [r Hr].
    { unfold quote, str. rewrite !append_assoc. by eexists. }
    rewrite Hr.
    change (parse_value (S fuel) (String dquote r))
      with ('(x, r') ← parse_string (String dquote r); Some (JString x, r')).
    by rewrite <- Hr, parse_string_quote.
  - destruct items as [|v items]; [done|].
    set (inner := indent +:+ gap).
    change (serialize indent (JArray (v :: items)))
      with ("[" +:+ str newline +:+ inner
            +:+ join ("," +:+ str newline +:+ inner)
                     (map (serialize inner) (v :: items))
            +:+ str newline +:+ indent +:+ "]").
    rewrite !append_assoc, parse_value_array. cbv zeta.
    rewrite skip_ws_line by (by apply blank_inner).
    pose proof (elements_open ("," +:+ str newline +:+ inner) inner v items
                  (str newline +:+ indent +:+ "]" +:+ rest)) as Hopen.
    rewrite skip_ws_opens by done.
    destruct (head_is_opens _ Hopen) as (-> & _).
    rewrite parse_elements_join;
      [done|done|done|by apply blank_inner|done|cbn in Hf |- *; lia].
  - destruct members as [|kv members]; [done|].
    set (inner := indent +:+ gap).
    change (serialize indent (JObject (kv :: members)))
      with ("{" +:+ str newline +:+ inner
            +:+ join ("," +:+ str newline +:+ inner)
                     (map (member inner) (kv :: members))
            +:+ str newline +:+ indent +:+ "}").
    rewrite !append_assoc, parse_value_object. cbv zeta.
    rewrite skip_ws_line by (by apply blank_inner).
    pose proof (members_open ("," +:+ str newline +:+ inner) inner kv members
                  (str newline +:+ indent +:+ "}" +:+ rest)) as Hopen.
    rewrite skip_ws_opens by done.
    destruct (head_is_opens _ Hopen) as (_ & -> & _).
    rewrite parse_members_join;
      [done|done|done|by apply blank_inner|done|cbn in Hf |- *; lia].
Qed.

(** The fuel [parse] gives is enough. *)
Lemma need_joined {A : Type} (cost : A -> nat) (text : A -> string) (sep : string)
    (l : list A) :
  (1 <= String.length sep)%nat ->
  Forall (fun a => (cost a <= String.length (text a))%nat) l ->
  (foldr (fun a n => S (Nat.max (cost a) n)) 0%nat l
   <= String.length (join sep (map text l)) + 1)%nat.
Proof.
  intros Hsep Hall. induction Hall as [|a l Ha Hall IH]; [cbn; lia|].
  destruct l as [|b l].
  - cbn. lia.
  - change (map text (a :: b :: l)) with (text a :: text b :: map text l).
    rewrite join_cons, !length_append.
    change (text b :: map text l) with (map text (b :: l)).
    cbn [foldr] in *. lia.
Qed.

Lemma need_le_length (v : Json) (indent : string) :
  (need v <= String.length (serialize indent v))%nat.
Proof.
  revert indent.
  induction v as [|b|n|s|items IH|members IH] using Json_nested_ind; intros indent.
  - cbn. lia.
  - destruct b; cbn; lia.
  - destruct n as [|p|p]; cbn [need serialize].
    + cbn. lia.
    + change (pretty (Z.pos p)) with (pretty (N.pos p)).
      destruct (pretty_pos_opens p "") as (c & r & Hcr & _).
      rewrite append_nil_r in Hcr. rewrite Hcr. cbn. lia.
    + change (pretty (Z.neg p)) with ("-" +:+ pretty (N.pos p)). cbn. lia.
  - cbn [need serialize]. unfold quote, str. cbn. lia.
  - destruct items as [|v items]; [cbn; lia|].
    set (inner := indent +:+ gap).
    change (serialize indent (JArray (v :: items)))
      with ("[" +:+ str newline +:+ inner
            +:+ join ("," +:+ str newline +:+ inner)
                     (map (serialize inner) (v :: items))
            +:+ str newline +:+ indent +:+ "]").
    cbn [need]. rewrite !length_append.
    pose proof (need_joined need (serialize inner) ("," +:+ str newline +:+ inner)
                  (v :: items)) as Hj.
    cbn [String.length str] in *.
    assert (Forall (fun a => (need a <= String.length (serialize inner a))%nat)
              (v :: items)) as Hall.
    { eapply Forall_impl; [exact IH|]. intros x Hx. apply Hx. }
    specialize (Hj ltac:(cbn; lia) Hall). lia.
  - destruct members as [|kv members]; [cbn; lia|].
    set (inner := indent +:+ gap).
    change (serialize indent (JObject (kv :: members)))
      with ("{" +:+ str newline +:+ inner
            +:+ join ("," +:+ str newline +:+ inner)
                     (map (member inner) (kv :: members))
            +:+ str newline +:+ indent +:+ "}").
    cbn [need]. rewrite !length_append.
    pose proof (need_joined (fun kv => need (snd kv)) (member inner)
                  ("," +:+ str newline +:+ inner) (kv :: members)) as Hj.
    cbn [String.length str] in *.
    assert (Forall (fun kv => (need (snd kv) <= String.length (member inner kv))%nat)
              (kv :: members)) as Hall.
    { eapply Forall_impl; [exact IH|]. intros x Hx. cbn beta in *.
      unfold member. rewrite !length_append. specialize (Hx inner). lia. }
    specialize (Hj ltac:(cbn; lia) Hall). lia.
Qed.

(** Reading is the inverse of writing. *)
Theorem parse_stringify (v : Json) : parse (stringify v) = Returns v.
Proof.
  unfold parse, stringify.
  pose proof (parse_value_serialize v "" ""
                (2 * String.length (serialize "" v) + 2)%nat eq_refl I) as Hp.
  rewrite append_nil_r in Hp. rewrite Hp; [done|].
  pose proof (need_le_length v ""). lia.
Qed.

End MiniJSON_facts.

Section Properties.

Context {T : Type} {codec : Codec T}.

Implicit Types (this that : CatsaJanga T) (w : World T) (tr : list Effect)
  (p : Process T) (options : CatsaJangaOptions T).

Lemma count_app f tr1 tr2 : count f (tr1 ++ tr2) = count f tr1 + count f tr2.
Proof. unfold count. by rewrite List.filter_app, length_app. Qed.

Lemma count_snoc f tr e : count f (tr ++ [e]) = count f tr + (if f e then 1 else 0).
Proof. rewrite count_app. unfold count. cbn. by destruct (f e). Qed.

Lemma trace_emit e w : trace (emit e w) = trace w ++ [e].
Proof. done. Qed.

(** Counting effects over a trace that was extended by known effects. *)
Ltac tally :=
  unfold errors_logged, infos_logged, writes_issued, saves, exits in *; cbn;
  rewrite <- ?app_assoc; rewrite ?count_app; unfold count; cbn;
  rewrite ?Nat.eqb_refl; cbn; try lia.

Lemma restore_total this w :
  exists r w', run (restore this) w = (Normal r, w')
    /\ (r = initialData this \/ exists v, r = Some v)
    /\ files w' = files w.
Proof.
  unfold restore; cbn.
  destruct (stat_fault (faults w) (outputFile this)); cbn; [eauto 6|].
  destruct (files w !! outputFile this) eqn:Hf; cbn; [|eauto 6].
  destruct (read_fault (faults w) (outputFile this)); cbn; [eauto 6|].
  rewrite Hf; cbn.
  destruct (JSON_parse s); cbn; eauto 8.
Qed.

Lemma saveProgress_total this w :
  exists w', run (saveProgress this) w = (Normal tt, w').
Proof.
  unfold saveProgress; cbn.
  destruct (getData this ()); cbn; [|eauto].
  destruct (JSON_stringify a) as [[text|]|]; cbn; eauto.
  destruct (write_fault (faults w) (outputFile this)); cbn; eauto.
Qed.

(** *** The event loop *)

Lemma new_CatsaJanga_run options w :
  run (new_CatsaJanga options) w
  = (Normal (instance (objects w) options),
     {| files := files w; faults := faults w; objects := S (objects w);
        cells := cells w ++ [false];
        listeners := listeners w
                     ++ coordinator_listeners (instance (objects w) options)
                          (Some (length (cells w)));
        trace := trace w; exitCode := exitCode w |}).
Proof.
  cbn. unfold add_listener, set_cells, set_objects, coordinator_listeners; cbn.
  by rewrite <- !app_assoc.
Qed.

Lemma spawn_exited m p c : exitCode (world p) = Some c -> spawn m p = p.
Proof. intros E. unfold spawn. by rewrite E. Qed.

Lemma deliver_exited ev p c : exitCode (world p) = Some c -> deliver ev p = p.
Proof.
  intros E. unfold deliver.
  induction (filter _ _) as [|l ls IH]; [done|].
  cbn. by rewrite (spawn_exited _ _ c).
Qed.

Lemma settle_exited i p c : exitCode (world p) = Some c -> settle i p = p.
Proof. intros E. unfold settle. by rewrite E. Qed.

Lemma filter_coordinator_listeners this cell ev :
  filter (fun l => l_event l = event_name ev) (coordinator_listeners this cell)
  = [ {| l_event := event_name ev; l_this := this; l_isShuttingDown := cell |} ].
Proof. by destruct ev. Qed.

(** In [ShuttingDown], with the process alive, an event changes nothing
    but the log: a crash is reported, a signal is dropped. *)
Lemma deliver_while_ShuttingDown this c p ev :
  ShuttingDown this c p ->
  exitCode (world p) = None ->
  deliver ev p
  = {| world := match crash_report ev with
                | Some msg => emit (Logged LError msg) (world p)
                | None => world p
                end;
       pending := pending p |}.
Proof.
  intros (HL & HC & _) E. destruct p as [w pend]; cbn in *.
  unfold deliver; cbn. rewrite HL.
  rewrite (filter_coordinator_listeners this (Some 0) ev); cbn.
  by destruct ev; cbn; unfold spawn; cbn; rewrite E; cbn; rewrite HC; cbn.
Qed.

Lemma saves_emit_log this lvl msg w :
  saves this (emit (Logged lvl msg) w) = saves this w.
Proof. unfold saves. rewrite trace_emit, count_snoc. cbn. lia. Qed.

Lemma writes_emit_log lvl msg w :
  writes_issued (emit (Logged lvl msg) w) = writes_issued w.
Proof. unfold writes_issued. rewrite trace_emit, count_snoc. cbn. lia. Qed.

Lemma errors_emit_error msg w :
  errors_logged (emit (Logged LError msg) w) = S (errors_logged w).
Proof. unfold errors_logged. rewrite trace_emit, count_snoc. cbn. lia. Qed.

Lemma exits_emit_log lvl msg w : exits (emit (Logged lvl msg) w) = exits w.
Proof. unfold exits. rewrite trace_emit, count_snoc. cbn. lia. Qed.

Lemma fs_perform_frame {X : Type} (rq : FsRequest X) this w :
  let w' := snd (fs_perform rq w) in
  listeners w' = listeners w /\ cells w' = cells w /\ exitCode w' = exitCode w
  /\ saves this w' = saves this w /\ exits w' = exits w.
Proof.
  unfold saves, exits.
  destruct rq as [path|path|path [text|]]; cbn;
    repeat match goal with
           | |- context [match ?x with _ => _ end] => destruct x; cbn
           end;
    rewrite ?trace_emit, ?count_snoc; cbn; repeat split; lia.
Qed.

Lemma ShuttingDown_deliver this c p ev :
  ShuttingDown this c p -> ShuttingDown this c (deliver ev p).
Proof.
  intros HS. destruct (exitCode (world p)) as [c'|] eqn:E.
  - by rewrite (deliver_exited ev p c').
  - rewrite (deliver_while_ShuttingDown this c p ev HS E).
    destruct HS as (HL & HC & Hs & [HA|(E' & _)]); [|congruence].
    unfold ShuttingDown; cbn.
    destruct (crash_report ev) as [msg|];
      rewrite ?saves_emit_log, ?exits_emit_log; cbn; auto.
Qed.

Lemma ShuttingDown_settle this c p i :
  ShuttingDown this c p ->
  ShuttingDown this c (settle i p)
  /\ (i = 0 -> exitCode (world (settle i p)) = Some c).
Proof.
  intros HS. destruct (exitCode (world p)) as [c'|] eqn:E.
  - rewrite (settle_exited i p c') by done. split; [done|].
    destruct HS as (_ & _ & _ & [(E' & _)|(E' & _)]); congruence.
  - destruct HS as (HL & HC & Hs & [(_ & Hx & data & k & Hp & Hk)|(E' & _)]);
      [|congruence].
    unfold settle. rewrite E, Hp.
    destruct i as [|i]; simpl (_ !! _);
      [|by (split; [repeat split; auto; left; eauto 8|])].
    pose proof (fs_perform_frame (WriteFile (outputFile this) data) this (world p))
      as (FL & FC & FE & Fs & Fx).
    destruct (fs_perform _ _) as [r w1]; cbn in *.
    destruct (Hk r w1) as (w2 & Hadv & Hw2).
    unfold spawn; cbn. rewrite FE, E, Hadv; cbn.
    assert (listeners w2 = listeners w1 /\ cells w2 = cells w1
            /\ saves this w2 = saves this w1 /\ exits w2 = exits w1)
      as (GL & GC & Gs & Gx).
    { destruct Hw2 as [->|[msg ->]]; [done|].
      by rewrite saves_emit_log, exits_emit_log. }
    split; [|done].
    unfold ShuttingDown, exit_world, saves, exits in *; cbn.
    rewrite !count_snoc; cbn.
    repeat split; [congruence..|lia|right; repeat split; lia].
Qed.

Lemma ShuttingDown_exec this c sched p :
  ShuttingDown this c p -> ShuttingDown this c (exec sched p).
Proof.
  revert p. induction sched as [|[ev|i] sched IH]; intros p HS; [done|..]; cbn.
  - apply IH. by apply ShuttingDown_deliver.
  - apply IH. by apply ShuttingDown_settle.
Qed.

Lemma ShuttingDown_counts this c p :
  ShuttingDown this c p ->
  saves this (world p) = 1
  /\ exits (world p) <= 1
  /\ (pending p = [] -> exits (world p) = 1 /\ exitCode (world p) = Some c).
Proof.
  intros (_ & _ & Hs & [(_ & Hx & data & k & Hp & _)|(E & Hx & _)]).
  - rewrite Hp, Hx. repeat split; [done|lia|done|done].
  - rewrite Hx. repeat split; [done|lia|done].
Qed.

Lemma started_world options fs flt :
  world (started options fs flt)
  = {| files := fs; faults := flt; objects := 1; cells := [false];
       listeners := coordinator_listeners (instance 0 options) (Some 0);
       trace := []; exitCode := None |}.
Proof. unfold started. by rewrite new_CatsaJanga_run. Qed.

Lemma run_bind {A B : Type} (m : Async T A) (f : A -> Async T B) w :
  run (m ≫= f) w
  = match run m w with
    | (Normal a, w') => run (f a) w'
    | (Abrupt e, w') => (Abrupt e, w')
    | (ProcessExit c, w') => (ProcessExit c, w')
    end.
Proof.
  revert w. induction m as [a|e|X op k IH|X rq k IH|c]; intros w; cbn; try done.
  - destruct (op w) as [x w']. apply IH.
  - destruct (fs_perform rq w) as [r w']. apply IH.
Qed.

(** The loop and the direct run agree: running is advancing, settling the
    awaited promise at once, and running on. *)
Lemma run_advance {A : Type} (m : Async T A) w :
  run m w
  = match advance m w with
    | (Ret a, w') => (Normal a, w')
    | (Throw e, w') => (Abrupt e, w')
    | (Exit c, w') => (ProcessExit c, w')
    | (Await rq k, w') => let '(r, w'') := fs_perform rq w' in run (k r) w''
    | (Sync op k, w') => run (Sync op k) w'
    end.
Proof.
  revert w. induction m as [a|e|X op k IH|X rq k IH|c]; intros w; cbn; try done.
  destruct (op w) as [x w']. apply IH.
Qed.

Lemma listener_advance this cell ev w :
  advance (listener {| l_event := event_name ev; l_this := this;
                       l_isShuttingDown := Some cell |} ev) w
  = advance (handleExit this cell (cause ev) (expected_status ev)) (reported ev w).
Proof. by destruct ev. Qed.

(** [handleExit] finding the guard unset: it sets it, logs the cause and
    calls [saveProgress]; then either the save fails before any write is
    issued and the process exits at once, or the task is suspended on the
    write and exits when it is resumed. Either way the world at exit is
    the one [saveProgress], run to completion, leaves. *)
Lemma handleExit_advance this cell signal c w :
  cells w !! cell = Some false ->
  let w1 := entering cell signal w in
  (exists w2, run (saveProgress this) w1 = (Normal tt, w2)
     /\ advance (handleExit this cell signal c) w = (Exit c, exit_world c w2))
  \/ (exists data k w1',
        advance (handleExit this cell signal c) w
        = (Await (WriteFile (outputFile this) data) k, w1')
        /\ resumes_to_exit c k
        /\ trace w1' = trace w1 ++ [Called (self this) "saveProgress";
                                    Logged LInfo ("Saving progress to "
                                                  +:+ outputFile this +:+ "...")]
        /\ listeners w1' = listeners w1 /\ cells w1' = cells w1
        /\ exitCode w1' = exitCode w1
        /\ forall r w' , fs_perform (WriteFile (outputFile this) data) w1' = (r, w') ->
             exists w2, run (saveProgress this) w1 = (Normal tt, w2)
               /\ advance (k r) w' = (Exit c, exit_world c w2)).
Proof.
  intros Hc w1. subst w1. unfold handleExit, saveProgress, entering. cbn. rewrite Hc. cbn.
  destruct (getData this ()) as [v|e]; cbn; [|left; eauto].
  destruct (JSON_stringify v) as [data|e]; cbn; [|left; eauto].
  right. eexists data, _, _. split; [reflexivity|]. cbn.
  split; [|repeat split].
  - intros [[]|e] w'; cbn; eauto.
  - by rewrite <- app_assoc.
  - intros r w' Hfs. cbn in Hfs. rewrite Hfs.
    destruct r as [[]|e]; cbn; eauto.
Qed.

Lemma saveProgress_frame this w w' :
  run (saveProgress this) w = (Normal tt, w') ->
  listeners w' = listeners w /\ cells w' = cells w /\ exitCode w' = exitCode w
  /\ saves this w' = S (saves this w) /\ exits w' = exits w.
Proof.
  unfold saveProgress; cbn.
  destruct (getData this ()) as [v|e]; cbn;
    [destruct (JSON_stringify v) as [[text|]|e]; cbn;
     [destruct (write_fault (faults w) (outputFile this)) as [[e [n|]]|]; cbn|..]|];
    intros [= <-]; cbn; repeat split; first [done|tally].
Qed.

Lemma started_Active options fs flt :
  Active (instance 0 options) (started options fs flt).
Proof. unfold Active. by rewrite started_world. Qed.

(** The transition [Active -> ShuttingDown]: the first event makes the
    coordinator call [saveProgress] once; when the write has settled the
    process has exited, in the world the completed save left, with the
    status of the cause. *)
Lemma Active_deliver this p ev :
  Active this p ->
  let p1 := deliver ev p in
  exists w2,
    run (saveProgress this) (entering 0 (cause ev) (reported ev (world p)))
    = (Normal tt, w2)
    /\ ShuttingDown this (expected_status ev) p1
    /\ world (settle 0 p1) = exit_world (expected_status ev) w2
    /\ (world p1 = exit_world (expected_status ev) w2
        \/ exitCode (world p1) = None /\ pending p1 <> []).
Proof.
  intros (HL & HC & HE & HP & Hs & Hx) p1. subst p1.
  unfold deliver. rewrite HL, filter_coordinator_listeners. cbn [foldl].
  unfold spawn. rewrite HE, listener_advance.
  assert (Hc : cells (reported ev (world p)) !! 0 = Some false).
  { unfold reported. destruct (crash_report ev); cbn; by rewrite HC. }
  assert (listeners (entering 0 (cause ev) (reported ev (world p)))
          = listeners (world p)
          /\ cells (entering 0 (cause ev) (reported ev (world p))) = [true]
          /\ exitCode (entering 0 (cause ev) (reported ev (world p))) = None
          /\ saves this (entering 0 (cause ev) (reported ev (world p))) = 0
          /\ exits (entering 0 (cause ev) (reported ev (world p))) = 0)
    as (WL & WC & WE & Ws & Wx).
  { unfold entering, reported, saves, exits in *.
    destruct (crash_report ev); cbn; rewrite HC, ?count_snoc; cbn;
      rewrite ?count_snoc; cbn; repeat split; first [done|lia]. }
  destruct (handleExit_advance this 0 (cause ev) (expected_status ev) _ Hc)
    as [(w2 & Hrun & ->)|(data & k & w1' & -> & Hk & Htr & HL' & HC' & HE' & Hfs)].
  - exists w2. split; [done|]. cbn.
    destruct (saveProgress_frame _ _ _ Hrun) as (FL & FC & FE & Fs & Fx).
    split; [|by auto].
    unfold ShuttingDown, saves, exits in *; cbn.
    rewrite !count_snoc; cbn.
    repeat split; [congruence|congruence|lia|right; repeat split; [lia|done]].
  - destruct (fs_perform (WriteFile (outputFile this) data) w1') as [r w'] eqn:Hp.
    destruct (Hfs r w' eq_refl) as (w2 & Hrun & Hadv).
    exists w2. split; [done|]. cbn [world pending is_suspended].
    assert (HS : ShuttingDown this (expected_status ev)
                   {| world := w1'; pending := pending p ++
                        [Await (WriteFile (outputFile this) data) k] |}).
    { assert (saves this w1' = 1 /\ exits w1' = 0) as [Hs1 Hx1].
      { unfold saves, exits in *. rewrite Htr, !count_app, Ws, Wx.
        unfold count; cbn. by rewrite ?Nat.eqb_refl. }
      unfold ShuttingDown; cbn [world pending]. rewrite HP.
      repeat split; [congruence|congruence|done|].
      left. repeat split; [congruence|done|eauto]. }
    split; [done|]. split.
    + pose proof (fs_perform_frame (WriteFile (outputFile this) data) this w1')
        as (_ & _ & FE & _). rewrite Hp in FE; cbn [snd] in FE.
      unfold settle; cbn [world pending]. rewrite HE', WE, HP.
      simpl (_ !! _). cbv beta iota. rewrite Hp.
      unfold spawn; cbn [world pending].
      by rewrite FE, HE', WE, Hadv.
    + right. rewrite HE', HP. split; [congruence|done].
Qed.

Lemma first_event options fs flt ev :
  ShuttingDown (instance 0 options) (expected_status ev)
    (deliver ev (started options fs flt)).
Proof.
  destruct (Active_deliver _ _ ev (started_Active options fs flt)) as (? & ? & ? & _).
  done.
Qed.

(** ** The checkpoint store *)

(** C4. When no checkpoint file exists at the configured path, [restore]
    returns the configured initial data ([None], the absent indicator,
    when none was configured) and logs nothing: neither an error entry nor
    any other. *)
Theorem restore_missing_file this w :
  files w !! outputFile this = None ->
  exists w',
    run (restore this) w = (Normal (initialData this), w')
    /\ errors_logged w' = errors_logged w
    /\ infos_logged w' = infos_logged w
    /\ files w' = files w.
Proof.
  intros Hf. unfold restore, errors_logged, infos_logged; cbn.
  destruct (stat_fault (faults w) (outputFile this)); cbn;
    rewrite ?Hf; cbn; eexists; (split; [reflexivity|]);
    cbn; rewrite !count_snoc; cbn; repeat split; lia.
Qed.

(** C3. When the checkpoint file holds a text that fails to deserialize,
    [restore] returns normally with the configured initial data ([None]
    when none was configured) and logs exactly one error entry, the one
    describing the failure. *)
Theorem restore_corrupt_file this w text e :
  files w !! outputFile this = Some text ->
  stat_fault (faults w) (outputFile this) = None ->
  read_fault (faults w) (outputFile this) = None ->
  JSON_parse text = Throws e ->
  exists w',
    run (restore this) w = (Normal (initialData this), w')
    /\ errors_logged w' = S (errors_logged w)
    /\ trace w' = trace w ++ [FsCall OpStat (outputFile this) true;
                              FsCall OpReadFile (outputFile this) true;
                              Logged LError ("Error restoring progress: "
                                             +:+ Error_toString e)].
Proof.
  intros Hf Hs Hr Hp. unfold restore, errors_logged; cbn.
  rewrite Hs, Hf; cbn. rewrite Hr, Hf; cbn. rewrite Hp; cbn.
  eexists; split; [reflexivity|]. cbn.
  rewrite <- !app_assoc; cbn. split; [tally|done].
Qed.

(** C5. When the write fails, whatever the failure (a fault of the
    environment, or data that [fs.writeFile] rejects), [saveProgress]
    returns normally with the same result [tt : unit] a successful save
    returns, and logs exactly one error entry, the one describing the
    failure. *)
Theorem saveProgress_write_failure this w v data e :
  getData this () = Returns v ->
  JSON_stringify v = Returns data ->
  fst (fs_perform (WriteFile (outputFile this) data) w) = Throws e ->
  exists w',
    run (saveProgress this) w = (Normal tt, w')
    /\ errors_logged w' = S (errors_logged w)
    /\ trace w' = trace w ++ [Called (self this) "saveProgress";
                              Logged LInfo ("Saving progress to "
                                            +:+ outputFile this +:+ "...");
                              FsCall OpWriteFile (outputFile this) false;
                              Logged LError ("Error saving progress: "
                                             +:+ Error_toString e)].
Proof.
  intros Hg Hj Hw. unfold saveProgress, errors_logged; cbn.
  rewrite Hg; cbn. rewrite Hj; cbn. cbn in Hw.
  destruct data as [text|]; cbn in *.
  - destruct (write_fault (faults w) (outputFile this)) as [wf|]; [|done].
    cbn in *. injection Hw as <-.
    eexists; split; [reflexivity|].
    destruct (wf_written wf); cbn; rewrite <- !app_assoc; cbn;
      (split; [tally|done]).
  - injection Hw as <-.
    eexists; split; [reflexivity|]. cbn. rewrite <- !app_assoc; cbn.
    split; [tally|done].
Qed.

(** C9. When the snapshot provider raises, [saveProgress] catches the
    error, logs it as one error entry and returns normally; no write is
    issued and the files are as they were. *)
Theorem saveProgress_provider_raises this w e :
  getData this () = Throws e ->
  exists w',
    run (saveProgress this) w = (Normal tt, w')
    /\ files w' = files w
    /\ writes_issued w' = writes_issued w
    /\ errors_logged w' = S (errors_logged w)
    /\ trace w' = trace w ++ [Called (self this) "saveProgress";
                              Logged LInfo ("Saving progress to "
                                            +:+ outputFile this +:+ "...");
                              Logged LError ("Error saving progress: "
                                             +:+ Error_toString e)].
Proof.
  intros Hg. unfold saveProgress, errors_logged, writes_issued; cbn.
  rewrite Hg; cbn.
  eexists; split; [reflexivity|]. cbn.
  rewrite <- !app_assoc; cbn. repeat split; tally.
Qed.

(** The success path of [saveProgress]: the file holds the JSON text of
    the snapshot and no error is logged. *)
Lemma saveProgress_success this w v text :
  getData this () = Returns v ->
  JSON_stringify v = Returns (Some text) ->
  write_fault (faults w) (outputFile this) = None ->
  exists w1,
    run (saveProgress this) w = (Normal tt, w1)
    /\ files w1 = <[outputFile this := text]> (files w)
    /\ faults w1 = faults w
    /\ errors_logged w1 = errors_logged w.
Proof.
  intros Hg Hj Hw. unfold saveProgress; cbn.
  rewrite Hg; cbn. rewrite Hj; cbn. rewrite Hw; cbn.
  eexists. split; [reflexivity|]. repeat split. tally.
Qed.

(** The success path of [restore]: the text of the file is read and
    parsed, one informational entry is logged and the value returned. *)
Lemma restore_success this w text v :
  files w !! outputFile this = Some text ->
  stat_fault (faults w) (outputFile this) = None ->
  read_fault (faults w) (outputFile this) = None ->
  JSON_parse text = Returns v ->
  exists w2,
    run (restore this) w = (Normal (Some v), w2)
    /\ infos_logged w2 = S (infos_logged w)
    /\ errors_logged w2 = errors_logged w.
Proof.
  intros Hf Hs Hr Hp. unfold restore; cbn.
  rewrite Hs, Hf; cbn. rewrite Hr, Hf; cbn. rewrite Hp; cbn.
  eexists. split; [reflexivity|]. split; tally.
Qed.

(** C1. Round trip. When the provider returns a JSON-serializable value,
    the write succeeds and the path can be read back, [saveProgress]
    leaves the JSON text of the value in the file, and a [restore] that
    follows, by any store configured with the same path, returns the
    value. *)
Theorem save_then_restore_roundtrip this that w v :
  getData this () = Returns v ->
  JSON_serializable v ->
  write_fault (faults w) (outputFile this) = None ->
  stat_fault (faults w) (outputFile this) = None ->
  read_fault (faults w) (outputFile this) = None ->
  outputFile that = outputFile this ->
  exists text w1 w2,
    JSON_stringify v = Returns (Some text)
    /\ run (saveProgress this) w = (Normal tt, w1)
    /\ files w1 !! outputFile this = Some text
    /\ run (restore that) w1 = (Normal (Some v), w2).
Proof.
  intros Hg (text & Hj & Hp) Hw Hs Hr Hpath.
  destruct (saveProgress_success this w v text Hg Hj Hw) as (w1 & Hsave & Hf & Hq & _).
  assert (files w1 !! outputFile that = Some text) as Hl.
  { by rewrite Hf, Hpath, lookup_insert_eq. }
  destruct (restore_success that w1 text v) as (w2 & Hres & _);
    [done|by rewrite Hq, Hpath..|done|].
  exists text, w1, w2. by rewrite <- Hpath at 1.
Qed.

(** What [restore] does when the existence check fails: the rejection of
    [fs.stat] is swallowed by [.catch(() => false)], so the outer [catch]
    and its error entry are never reached. *)
Lemma restore_stat_failure this w e :
  stat_fault (faults w) (outputFile this) = Some e ->
  run (restore this) w
  = (Normal (initialData this), emit (FsCall OpStat (outputFile this) false) w).
Proof. intros Hs. unfold restore; cbn. by rewrite Hs. Qed.

(** What [restore] returns depends on the file system only. *)
Lemma restore_depends_on_files this w w' :
  files w = files w' -> faults w = faults w' ->
  fst (run (restore this) w) = fst (run (restore this) w').
Proof.
  intros Hf Hq. unfold restore; cbn. rewrite Hf, Hq.
  destruct (stat_fault (faults w') (outputFile this)); cbn; [done|].
  destruct (files w' !! outputFile this) eqn:Hl; cbn; [|done].
  rewrite Hf, Hq.
  destruct (read_fault (faults w') (outputFile this)); cbn; [done|].
  rewrite Hl; cbn.
  by destruct (JSON_parse s).
Qed.

(** C8. [createWithRestore] constructs a store, calls [restore] on it and
    returns the store with the resolved value. The resolved value is
    exactly what that [restore] call returned, which is the restored
    snapshot or the configured initial data, and is what [restore]
    returns on a store freshly made by [new CatsaJanga(options)]. *)
Theorem createWithRestore_is_restore options w :
  exists saver w1 r w2,
    run (new_CatsaJanga_v1 options) w = (Normal saver, w1)
    /\ run (restore saver) w1 = (Normal r, w2)
    /\ run (createWithRestore options) w = (Normal (saver, r), w2)
    /\ (r = opt_initialData options \/ exists v, r = Some v)
    /\ fst (run (new_CatsaJanga options) w) = Normal saver
    /\ fst (run (restore saver) (snd (run (new_CatsaJanga options) w))) = Normal r.
Proof.
  unfold createWithRestore. rewrite run_bind.
  assert (exists w1, run (new_CatsaJanga_v1 options) w
                     = (Normal (instance (objects w) options), w1)
                     /\ files w1 = files w /\ faults w1 = faults w)
    as (w1 & Hn & Hf & Hq).
  { eexists. split; [reflexivity|done]. }
  rewrite Hn, run_bind.
  destruct (restore_total (instance (objects w) options) w1)
    as (r & w2 & Hr & Hcase & _).
  rewrite Hr. exists (instance (objects w) options), w1, r, w2.
  split; [done|]. split; [done|]. split.
  { cbn. destruct r as [d|]; [done|].
    destruct Hcase as [Hi|[v Hv]]; [|done]. cbn in Hi. by rewrite <- Hi. }
  split; [done|]. rewrite new_CatsaJanga_run. split; [done|].
  cbn [snd]. rewrite <- (restore_depends_on_files _ w1); [by rewrite Hr|done..].
Qed.

(** ** The shutdown coordinator *)

(** C2. On a coordinator that has received a first termination event,
    in any state [p] the loop reaches afterwards (at once, or after further
    events and settled promises), a further termination event [ev2] is a
    second invocation of the handler: the guard is already set, set before
    the first handler suspended; the second invocation adds no call of
    [saveProgress], no write, no exit and no suspended task. Throughout,
    [saveProgress] has been called exactly once and [process.exit] at most
    once, and exactly once as soon as the write of the save has settled. *)
Theorem shutdown_runs_once options fs flt ev1 sched ev2 :
  let this := instance 0 options in
  let p1 := deliver ev1 (started options fs flt) in
  let p := exec sched p1 in
  let p' := deliver ev2 p in
  cells (world p1) = [true]
  /\ saves this (world p) = 1
  /\ exits (world p) <= 1
  /\ saves this (world p') = 1
  /\ exits (world p') = exits (world p)
  /\ writes_issued (world p') = writes_issued (world p)
  /\ pending p' = pending p
  /\ (pending p' = [] ->
      exits (world p') = 1 /\ exitCode (world p') = Some (expected_status ev1))
  /\ saves this (world (settle 0 p')) = 1
  /\ exits (world (settle 0 p')) = 1.
Proof.
  intros this p1 p p'.
  pose proof (first_event options fs flt ev1) as H1. fold this p1 in H1.
  pose proof (ShuttingDown_exec _ _ sched _ H1) as H2. fold p in H2.
  pose proof (ShuttingDown_deliver _ _ _ ev2 H2) as H3. fold p' in H3.
  destruct (ShuttingDown_settle _ _ _ 0 H3) as [H4 E4].
  destruct (ShuttingDown_counts _ _ _ H2) as (S2 & X2 & _).
  destruct (ShuttingDown_counts _ _ _ H3) as (S3 & _ & Q3).
  destruct (ShuttingDown_counts _ _ _ H4) as (S4 & _).
  assert (exits (world (settle 0 p')) = 1) as X4.
  { destruct H4 as (_ & _ & _ & [(E & _)|(_ & X & _)]); [|done].
    rewrite E4 in E; done. }
  assert (exits (world p') = exits (world p)
          /\ writes_issued (world p') = writes_issued (world p)
          /\ pending p' = pending p) as (X3 & W3 & P3).
  { subst p'. destruct (exitCode (world p)) as [c|] eqn:E.
    - by rewrite (deliver_exited ev2 p c).
    - rewrite (deliver_while_ShuttingDown _ _ _ ev2 H2 E). cbn [world pending].
      destruct (crash_report ev2); [|done].
      by rewrite exits_emit_log, writes_emit_log. }
  destruct H1 as (_ & C1 & _).
  repeat split; try done; by apply Q3.
Qed.

(** C6. The first termination event on a coordinator makes the process
    exit with status [0] when it is [SIGINT] or [SIGTERM] and with status
    [1] when it is an uncaught exception or an unhandled rejection; the
    exit happens in the world that [saveProgress], called by the handler
    and run to completion, leaves, and not while its write is in flight. *)
Theorem exit_status_after_save options fs flt ev :
  let this := instance 0 options in
  let p0 := started options fs flt in
  let p1 := deliver ev p0 in
  let p2 := settle 0 p1 in
  exists w2,
    run (saveProgress this) (entering 0 (cause ev) (reported ev (world p0)))
    = (Normal tt, w2)
    /\ world p2 = exit_world (expected_status ev) w2
    /\ trace (world p2) = trace w2 ++ [Exited (expected_status ev)]
    /\ exitCode (world p2) = Some (expected_status ev)
    /\ (pending p1 <> [] -> exitCode (world p1) = None /\ exits (world p1) = 0).
Proof.
  intros this p0 p1 p2.
  destruct (Active_deliver this p0 ev (started_Active options fs flt))
    as (w2 & Hrun & HS & Hw & Hp1).
  fold p1 in HS, Hw, Hp1. fold p2 in Hw.
  exists w2. rewrite Hw. split; [done|]. split; [done|]. split; [done|].
  split; [done|].
  intros Hp. destruct HS as (_ & _ & _ & [(E & X & _)|(_ & _ & P)]); done.
Qed.

(** C10. A crash handler logs its error entry first and calls
    [handleExit] second. On a coordinator that is already shutting down,
    with the process still alive, a crash notification adds exactly that
    error entry to the trace and nothing else: no call of [saveProgress],
    no exit, no suspended task. On an active coordinator the entry comes
    before everything [handleExit] does. *)
Theorem crash_is_logged_before_guard options fs flt ev1 sched ev2 msg :
  let this := instance 0 options in
  let p0 := started options fs flt in
  let p := exec sched (deliver ev1 p0) in
  crash_report ev2 = Some msg ->
  exitCode (world p) = None ->
  deliver ev2 p = {| world := emit (Logged LError msg) (world p);
                     pending := pending p |}
  /\ errors_logged (world (deliver ev2 p)) = S (errors_logged (world p))
  /\ saves this (world (deliver ev2 p)) = saves this (world p)
  /\ exits (world (deliver ev2 p)) = exits (world p)
  /\ exists rest,
       trace (world (deliver ev2 p0))
       = Logged LError msg
         :: Logged LInfo ("Process " +:+ cause ev2 +:+ ". Saving progress...")
         :: Called 0 "saveProgress" :: rest.
Proof.
  intros this p0 p Hmsg E.
  pose proof (first_event options fs flt ev1) as H1.
  pose proof (ShuttingDown_exec _ _ sched _ H1) as H2. fold this p0 p in H2.
  rewrite (deliver_while_ShuttingDown _ _ _ ev2 H2 E), Hmsg. cbn [world].
  rewrite saves_emit_log, exits_emit_log, errors_emit_error.
  repeat split.
  subst p0. unfold deliver. rewrite started_world; cbn [listeners].
  rewrite filter_coordinator_listeners; cbn [foldl].
  unfold spawn. rewrite started_world; cbn [exitCode world]. rewrite listener_advance.
  unfold reported. rewrite Hmsg.
  unfold handleExit, saveProgress; cbn.
  destruct (opt_getData options ()) as [v|e]; cbn;
    [destruct (JSON_stringify v) as [data|e]; cbn|]; eauto.
Qed.

(** ** Further properties of the checkpoint store *)

(** X1. When the checkpoint file exists, can be read and holds a text that
    deserializes, [restore] returns the deserialized value, whatever the
    initial data is, logs the one informational entry and no error, and
    leaves the files as they are. *)
Theorem restore_reads_checkpoint this w text v :
  files w !! outputFile this = Some text ->
  stat_fault (faults w) (outputFile this) = None ->
  read_fault (faults w) (outputFile this) = None ->
  JSON_parse text = Returns v ->
  exists w',
    run (restore this) w = (Normal (Some v), w')
    /\ trace w' = trace w ++ [FsCall OpStat (outputFile this) true;
                              FsCall OpReadFile (outputFile this) true;
                              Logged LInfo "Progress data successfully restored"]
    /\ errors_logged w' = errors_logged w
    /\ files w' = files w.
Proof.
  intros Hf Hs Hr Hp. unfold restore; cbn.
  rewrite Hs, Hf; cbn. rewrite Hr, Hf; cbn. rewrite Hp; cbn.
  eexists. split; [reflexivity|]. cbn. rewrite <- !app_assoc; cbn.
  repeat split. tally.
Qed.

(** X2. When the checkpoint file exists but reading it fails, [restore]
    returns the configured initial data normally and logs exactly one error
    entry, the one of the read failure; the text is never parsed and no
    informational entry is logged. *)
Theorem restore_read_failure this w text e :
  files w !! outputFile this = Some text ->
  stat_fault (faults w) (outputFile this) = None ->
  read_fault (faults w) (outputFile this) = Some e ->
  exists w',
    run (restore this) w = (Normal (initialData this), w')
    /\ trace w' = trace w ++ [FsCall OpStat (outputFile this) true;
                              FsCall OpReadFile (outputFile this) false;
                              Logged LError ("Error restoring progress: "
                                             +:+ Error_toString e)]
    /\ errors_logged w' = S (errors_logged w)
    /\ infos_logged w' = infos_logged w
    /\ files w' = files w.
Proof.
  intros Hf Hs Hr. unfold restore; cbn.
  rewrite Hs, Hf; cbn. rewrite Hr; cbn.
  eexists. split; [reflexivity|]. cbn. rewrite <- !app_assoc; cbn.
  repeat split; tally.
Qed.

(** X3. In every world [restore] returns normally; it only reads: the
    files, the listeners, the guard cells and the exit state are as before
    and no write is issued; it logs at most one entry; and what it returns
    is the configured initial data, or else the value the text of the file
    deserializes to. *)
Theorem restore_only_reads this w :
  exists r w',
    run (restore this) w = (Normal r, w')
    /\ files w' = files w
    /\ listeners w' = listeners w
    /\ cells w' = cells w
    /\ exitCode w' = exitCode w
    /\ writes_issued w' = writes_issued w
    /\ entries_logged w' <= S (entries_logged w)
    /\ (r = initialData this
        \/ exists text v,
             files w !! outputFile this = Some text
             /\ JSON_parse text = Returns v /\ r = Some v).
Proof.
  unfold restore, entries_logged; cbn.
  destruct (stat_fault (faults w) (outputFile this)); cbn.
  { eexists _, _. split; [reflexivity|]. cbn. repeat split; first [by left|tally]. }
  destruct (files w !! outputFile this) as [text|] eqn:Hf; cbn.
  2: { eexists _, _. split; [reflexivity|]. cbn.
       repeat split; first [by left|tally]. }
  destruct (read_fault (faults w) (outputFile this)); cbn.
  { eexists _, _. split; [reflexivity|]. cbn. repeat split; first [by left|tally]. }
  rewrite Hf; cbn.
  destruct (JSON_parse text) as [v|e] eqn:Hp; cbn.
  - eexists _, _. split; [reflexivity|]. cbn.
    repeat split; first [by right; eauto|tally].
  - eexists _, _. split; [reflexivity|]. cbn.
    repeat split; first [by left|tally].
Qed.

(** X4. A successful [saveProgress] replaces the contents of the
    checkpoint file in full: whatever the file held before, it holds
    exactly the JSON text of the snapshot afterwards; every other file is
    untouched; one informational entry and no error is logged; and saving
    again leaves the files as the first save left them. *)
Theorem saveProgress_overwrites this w v text :
  getData this () = Returns v ->
  JSON_stringify v = Returns (Some text) ->
  write_fault (faults w) (outputFile this) = None ->
  exists w1 w2,
    run (saveProgress this) w = (Normal tt, w1)
    /\ files w1 !! outputFile this = Some text
    /\ (forall path, path <> outputFile this -> files w1 !! path = files w !! path)
    /\ trace w1 = trace w ++ [Called (self this) "saveProgress";
                              Logged LInfo ("Saving progress to "
                                            +:+ outputFile this +:+ "...");
                              FsCall OpWriteFile (outputFile this) true]
    /\ errors_logged w1 = errors_logged w
    /\ run (saveProgress this) w1 = (Normal tt, w2)
    /\ files w2 = files w1.
Proof.
  intros Hg Hj Hw. unfold saveProgress; cbn.
  rewrite Hg; cbn. rewrite Hj; cbn. rewrite Hw; cbn.
  eexists _, _. split; [reflexivity|]. cbn.
  split; [by rewrite lookup_insert_eq|].
  split; [by intros path Hne; rewrite lookup_insert_ne|].
  split; [by rewrite <- !app_assoc|].
  split; [tally|].
  rewrite Hw; cbn. split; [reflexivity|]. cbn. by rewrite insert_insert_eq.
Qed.

(** X5. In every world [saveProgress] returns normally with [tt]; it
    records one call, logs exactly one informational entry and at most one
    error entry, issues at most one write, never touches a file other than
    its own, and leaves the listeners, the guard cells and the exit state
    as they are. *)
Theorem saveProgress_is_contained this w :
  exists w',
    run (saveProgress this) w = (Normal tt, w')
    /\ saves this w' = S (saves this w)
    /\ infos_logged w' = S (infos_logged w)
    /\ errors_logged w' <= S (errors_logged w)
    /\ writes_issued w' <= S (writes_issued w)
    /\ (forall path, path <> outputFile this -> files w' !! path = files w !! path)
    /\ listeners w' = listeners w
    /\ cells w' = cells w
    /\ exitCode w' = exitCode w.
Proof.
  unfold saveProgress; cbn.
  destruct (getData this ()) as [v|e]; cbn;
    [destruct (JSON_stringify v) as [[text|]|e]; cbn;
     [destruct (write_fault (faults w) (outputFile this)) as [[e [n|]]|]; cbn|..]|];
    (eexists; split; [reflexivity|]); cbn;
    repeat split;
    first [done
          | by intros path Hne; rewrite lookup_insert_ne
          | tally].
Qed.

(** X6. When the snapshot has no JSON text, because [JSON.stringify]
    throws on it or yields [undefined], [saveProgress] returns normally,
    logs exactly one error entry and leaves every file as it was. *)
Theorem saveProgress_without_text this w v :
  getData this () = Returns v ->
  (JSON_stringify v = Returns None \/ exists e, JSON_stringify v = Throws e) ->
  exists w',
    run (saveProgress this) w = (Normal tt, w')
    /\ files w' = files w
    /\ errors_logged w' = S (errors_logged w).
Proof.
  intros Hg Hj. unfold saveProgress; cbn. rewrite Hg; cbn.
  destruct Hj as [Hj|[e Hj]]; rewrite Hj; cbn;
    (eexists; split; [reflexivity|]); cbn; split; first [done|tally].
Qed.

(** ** Further properties of the shutdown coordinator *)

(** X7. [new CatsaJanga(options)] registers, for each of the four events,
    exactly one more listener than there were, after the ones already
    registered; the four share one fresh guard cell, unset; the files and
    the log are not touched. *)
Theorem constructor_registers_listeners options w ev :
  exists this w',
    run (new_CatsaJanga options) w = (Normal this, w')
    /\ length (filter (fun l => l_event l = event_name ev) (listeners w'))
       = S (length (filter (fun l => l_event l = event_name ev) (listeners w)))
    /\ listeners w' = listeners w
                      ++ coordinator_listeners this (Some (length (cells w)))
    /\ cells w' = cells w ++ [false]
    /\ outputFile this = opt_outputFile options
    /\ files w' = files w
    /\ trace w' = trace w.
Proof.
  rewrite new_CatsaJanga_run. eexists _, _. split; [reflexivity|]. cbn [listeners].
  split; [|done].
  rewrite filter_app, length_app, filter_coordinator_listeners. cbn. lia.
Qed.

(** X8. A shutdown persists the snapshot. When the provider returns a
    value with a JSON text and the path can be written, the first
    termination event leaves the process alive while the write is in
    flight; once the write has settled the checkpoint file holds the text,
    the process has exited with the status of the cause, and the trace is
    the report of the crash if any, the cause, the call of [saveProgress]
    with its entry, the write and the exit, in this order. *)
Theorem shutdown_persists_snapshot options fs flt ev v text :
  opt_getData options () = Returns v ->
  JSON_stringify v = Returns (Some text) ->
  write_fault flt (opt_outputFile options) = None ->
  let p1 := deliver ev (started options fs flt) in
  let p2 := settle 0 p1 in
  exitCode (world p1) = None
  /\ files (world p2) = <[opt_outputFile options := text]> fs
  /\ exitCode (world p2) = Some (expected_status ev)
  /\ trace (world p2)
     = match crash_report ev with Some msg => [Logged LError msg] | None => [] end
       ++ [Logged LInfo ("Process " +:+ cause ev +:+ ". Saving progress...");
           Called 0 "saveProgress";
           Logged LInfo ("Saving progress to " +:+ opt_outputFile options +:+ "...");
           FsCall OpWriteFile (opt_outputFile options) true;
           Exited (expected_status ev)].
Proof.
  intros Hg Hj Hw p1 p2. subst p2 p1. unfold deliver.
  rewrite started_world; cbn [listeners].
  rewrite filter_coordinator_listeners; cbn [foldl].
  unfold spawn. rewrite started_world; cbn [exitCode world]. rewrite listener_advance.
  unfold handleExit, saveProgress, reported.
  by destruct ev; cbn; rewrite Hg; cbn; rewrite Hj; cbn; rewrite Hw; cbn.
Qed.

(** X9. A failed save does not hold the shutdown back. When the write of
    the shutdown save fails, the failure is logged as one error entry and
    the process still exits, once, with the status of the cause. *)
Theorem shutdown_exits_after_failed_save options fs flt ev v text wf :
  opt_getData options () = Returns v ->
  JSON_stringify v = Returns (Some text) ->
  write_fault flt (opt_outputFile options) = Some wf ->
  let p2 := settle 0 (deliver ev (started options fs flt)) in
  exitCode (world p2) = Some (expected_status ev)
  /\ exits (world p2) = 1
  /\ errors_logged (world p2)
     = S (match crash_report ev with Some _ => 1 | None => 0 end)
  /\ pending p2 = [].
Proof.
  intros Hg Hj Hw p2. subst p2. unfold deliver.
  rewrite started_world; cbn [listeners].
  rewrite filter_coordinator_listeners; cbn [foldl].
  unfold spawn. rewrite started_world; cbn [exitCode world]. rewrite listener_advance.
  unfold handleExit, saveProgress, reported.
  by destruct ev; cbn; rewrite Hg; cbn; rewrite Hj; cbn; rewrite Hw; cbn;
    destruct (wf_written wf).
Qed.

(** X10. Shutting down is one-way, and the first cause decides the
    status. After the first termination event, whatever events and settled
    promises follow, the guard stays set, the listeners stay registered,
    and the process is either still alive or has exited with the status of
    that first event, never with that of a later one. *)
Theorem shutdown_is_one_way options fs flt ev1 sched :
  let p := exec sched (deliver ev1 (started options fs flt)) in
  cells (world p) = [true]
  /\ listeners (world p) = coordinator_listeners (instance 0 options) (Some 0)
  /\ (exitCode (world p) = None
      \/ exitCode (world p) = Some (expected_status ev1)).
Proof.
  intros p.
  pose proof (ShuttingDown_exec _ _ sched _ (first_event options fs flt ev1)) as HS.
  fold p in HS. destruct HS as (HL & HC & _ & [(E & _)|(E & _)]); auto.
Qed.

(** *** The earlier revision *)

Lemma started_v1_world options fs flt :
  world (started_v1 options fs flt)
  = {| files := fs; faults := flt; objects := 1; cells := [];
       listeners := coordinator_listeners (instance 0 options) None;
       trace := []; exitCode := None |}.
Proof. done. Qed.

(** What a listener of the earlier revision does with an event when the
    save reaches its write: it reports, logs, calls [saveProgress] and
    is suspended on the write, whatever was done before. *)
Lemma deliver_v1 this p ev v data :
  listeners (world p) = coordinator_listeners this None ->
  exitCode (world p) = None ->
  getData this () = Returns v ->
  JSON_stringify v = Returns data ->
  deliver ev p
  = {| world :=
         emit (Logged LInfo ("Saving progress to " +:+ outputFile this +:+ "..."))
           (emit (Called (self this) "saveProgress")
              (emit (Logged LInfo ("Process " +:+ cause ev +:+ ". Saving progress..."))
                 (reported ev (world p))));
       pending :=
         pending p
         ++ [Await (WriteFile (outputFile this) data)
               (fun r =>
                  bind (try_catch (call r)
                          (fun error =>
                             logger_error ("Error saving progress: "
                                           +:+ Error_toString error)))
                       (fun _ => process_exit (expected_status ev)))] |}.
Proof.
  intros HL HE Hg Hj. unfold deliver. rewrite HL, filter_coordinator_listeners.
  cbn [foldl]. unfold spawn. rewrite HE.
  unfold listener, handleExit_v1, saveProgress, reported.
  by destruct ev; cbn; rewrite Hg; cbn; rewrite Hj; cbn.
Qed.

Lemma fs_perform_alive {X : Type} (rq : FsRequest X) w :
  exitCode (snd (fs_perform rq w)) = exitCode w.
Proof.
  destruct rq as [path|path|path [text|]]; cbn;
    repeat match goal with
           | |- context [match ?x with _ => _ end] => destruct x; cbn
           end; done.
Qed.

(** Settling the write of a suspended [handleExit] makes the process
    exit with the status that [handleExit] was called with. *)
Lemma settle_write_exits p i path data msg c :
  exitCode (world p) = None ->
  pending p !! i
  = Some (Await (WriteFile path data)
            (fun r => bind (try_catch (call r)
                              (fun error => logger_error (msg error)))
                           (fun _ => process_exit c))) ->
  exitCode (world (settle i p)) = Some c.
Proof.
  intros HE Hp. unfold settle. rewrite HE, Hp.
  pose proof (fs_perform_alive (WriteFile path data) (world p)) as FE.
  destruct (fs_perform (WriteFile path data) (world p)) as [r w1]; cbn [snd] in FE.
  unfold spawn; cbn [world pending]. rewrite FE, HE.
  by destruct r as [[]|e].
Qed.

(** X11. The earlier revision, whose [handleExit] has no guard, is not
    idempotent. When the save reaches its write, two termination events in
    succession call [saveProgress] twice and leave two writes in flight;
    the process exits when either settles, with the status of the event
    whose write it was. *)
Theorem unguarded_revision_saves_twice options fs flt ev1 ev2 v data :
  opt_getData options () = Returns v ->
  JSON_stringify v = Returns data ->
  let this := instance 0 options in
  let p := deliver ev2 (deliver ev1 (started_v1 options fs flt)) in
  saves this (world p) = 2
  /\ length (pending p) = 2
  /\ exitCode (world p) = None
  /\ exitCode (world (settle 0 p)) = Some (expected_status ev1)
  /\ exitCode (world (settle 1 p)) = Some (expected_status ev2).
Proof.
  intros Hg Hj this p. subst p.
  rewrite (deliver_v1 this _ ev1 v data) by (done || by rewrite started_v1_world).
  rewrite (deliver_v1 this _ ev2 v data)
    by (done || (cbn [world]; unfold reported;
                 by destruct (crash_report ev1); rewrite ?started_v1_world)).
  cbn [world pending]. unfold reported.
  split.
  { rewrite started_v1_world. subst this.
    destruct (crash_report ev1), (crash_report ev2); cbn; tally. }
  split; [done|]. split.
  { by destruct (crash_report ev1), (crash_report ev2). }
  assert (exitCode (reported ev2
            (emit (Logged LInfo ("Saving progress to " +:+ outputFile this +:+ "..."))
               (emit (Called (self this) "saveProgress")
                  (emit (Logged LInfo ("Process " +:+ cause ev1
                                       +:+ ". Saving progress..."))
                     (reported ev1 (world (started_v1 options fs flt)))))))
          = None) as HE.
  { unfold reported. by destruct (crash_report ev1), (crash_report ev2). }
  unfold reported in HE.
  split; eapply settle_write_exits; cbn [world pending]; first [exact HE|done].
Qed.

(** *** Two stores in one process *)

Lemma started_two_eq options1 options2 fs flt :
  started_two options1 options2 fs flt
  = {| world :=
         {| files := fs; faults := flt; objects := 2; cells := [false; false];
            listeners := coordinator_listeners (instance 0 options1) (Some 0)
                         ++ coordinator_listeners (instance 1 options2) (Some 1);
            trace := []; exitCode := None |};
       pending := [] |}.
Proof. unfold started_two. by rewrite !new_CatsaJanga_run. Qed.

(** What a guarded listener does with its event when the guard is clear
    and the save reaches its write. *)
Lemma spawn_listener_saves this c p ev v data :
  exitCode (world p) = None ->
  cells (world p) !! c = Some false ->
  getData this () = Returns v ->
  JSON_stringify v = Returns data ->
  spawn (listener {| l_event := event_name ev; l_this := this;
                     l_isShuttingDown := Some c |} ev) p
  = {| world :=
         emit (Logged LInfo ("Saving progress to " +:+ outputFile this +:+ "..."))
           (emit (Called (self this) "saveProgress")
              (entering c (cause ev) (reported ev (world p))));
       pending :=
         pending p
         ++ [Await (WriteFile (outputFile this) data)
               (fun r =>
                  bind (try_catch (call r)
                          (fun error =>
                             logger_error ("Error saving progress: "
                                           +:+ Error_toString error)))
                       (fun _ => process_exit (expected_status ev)))] |}.
Proof.
  intros HE Hc Hg Hj. unfold spawn. rewrite HE.
  unfold listener, handleExit, saveProgress, reported, entering.
  by destruct ev; cbn; rewrite Hc; cbn; rewrite Hg; cbn; rewrite Hj; cbn.
Qed.

(** Once the write of a suspended [handleExit] has settled, its task is
    gone from the suspended ones and no other has been added. *)
Lemma settle_write_pending p i path data msg c :
  exitCode (world p) = None ->
  pending p !! i
  = Some (Await (WriteFile path data)
            (fun r => bind (try_catch (call r)
                              (fun error => logger_error (msg error)))
                           (fun _ => process_exit c))) ->
  pending (settle i p) = delete i (pending p).
Proof.
  intros HE Hp. unfold settle. rewrite HE, Hp.
  pose proof (fs_perform_alive (WriteFile path data) (world p)) as FE.
  destruct (fs_perform (WriteFile path data) (world p)) as [r w1]; cbn [snd] in FE.
  unfold spawn; cbn [world pending]. rewrite FE, HE.
  by destruct r as [[]|e].
Qed.

(** X12. Each store has its own guard. With two stores constructed in one
    process, one termination event calls [saveProgress] on each of them,
    once, and sets both guards; when both saves reach their writes, the
    process exits as soon as either write settles, with the status of the
    event, while the task of the other save is still suspended. *)
Theorem stores_have_their_own_guard options1 options2 fs flt ev v1 data1 v2 data2 :
  opt_getData options1 () = Returns v1 ->
  JSON_stringify v1 = Returns data1 ->
  opt_getData options2 () = Returns v2 ->
  JSON_stringify v2 = Returns data2 ->
  let p := deliver ev (started_two options1 options2 fs flt) in
  saves (instance 0 options1) (world p) = 1
  /\ saves (instance 1 options2) (world p) = 1
  /\ cells (world p) = [true; true]
  /\ length (pending p) = 2
  /\ exitCode (world p) = None
  /\ forall i, i < 2 ->
       exitCode (world (settle i p)) = Some (expected_status ev)
       /\ length (pending (settle i p)) = 1.
Proof.
  intros Hg1 Hj1 Hg2 Hj2 p. subst p. rewrite started_two_eq.
  unfold deliver; cbn [world listeners].
  rewrite filter_app, !filter_coordinator_listeners. cbn [app foldl].
  rewrite (spawn_listener_saves (instance 0 options1) 0 _ ev v1 data1)
    by done.
  rewrite (spawn_listener_saves (instance 1 options2) 1 _ ev v2 data2)
    by (done || by unfold reported; destruct (crash_report ev)).
  cbn [world pending app]. unfold reported, entering.
  split; [destruct (crash_report ev); cbn; tally|].
  split; [destruct (crash_report ev); cbn; tally|].
  split; [by destruct (crash_report ev)|].
  split; [done|].
  split; [by destruct (crash_report ev)|].
  intros i Hi.
  destruct i as [|[|i]]; [| |lia].
  all: split; [eapply settle_write_exits|erewrite settle_write_pending];
    cbn [world pending];
    first [ by destruct (crash_report ev) | done ].
Qed.

(** *** Composition *)

(** [restore] reads the file system only at its own path. *)
Lemma restore_depends_on_file this w w' :
  files w !! outputFile this = files w' !! outputFile this ->
  faults w = faults w' ->
  fst (run (restore this) w) = fst (run (restore this) w').
Proof.
  intros Hf Hq. unfold restore; cbn. rewrite Hf, Hq.
  destruct (stat_fault (faults w') (outputFile this)); cbn; [done|].
  destruct (files w' !! outputFile this) eqn:Hl; cbn; [|done].
  rewrite Hf, Hq.
  destruct (read_fault (faults w') (outputFile this)); cbn; [done|].
  rewrite Hl; cbn.
  by destruct (JSON_parse s).
Qed.

Lemma restore_preserves this w :
  files (snd (run (restore this) w)) = files w
  /\ faults (snd (run (restore this) w)) = faults w.
Proof.
  unfold restore; cbn.
  destruct (stat_fault (faults w) (outputFile this)); cbn; [done|].
  destruct (files w !! outputFile this) eqn:Hf; cbn; [|done].
  destruct (read_fault (faults w) (outputFile this)); cbn; [done|].
  rewrite Hf; cbn.
  by destruct (JSON_parse s).
Qed.

Lemma saveProgress_preserves this w path :
  path <> outputFile this ->
  files (snd (run (saveProgress this) w)) !! path = files w !! path
  /\ faults (snd (run (saveProgress this) w)) = faults w.
Proof.
  intros Hp. unfold saveProgress; cbn.
  destruct (getData this ()) as [v|e]; cbn; [|done].
  destruct (JSON_stringify v) as [[text|]|e]; cbn; [|done..].
  destruct (write_fault (faults w) (outputFile this)) as [[e [n|]]|]; cbn;
    by rewrite ?lookup_insert_ne.
Qed.


(** X14. Restoring is repeatable. A [restore], by any store, leaves the
    file system as every later [restore] needs it: a [restore] that follows
    returns what it would have returned without the first. *)
Theorem restore_is_repeatable this that w :
  fst (run (restore that) (snd (run (restore this) w)))
  = fst (run (restore that) w).
Proof.
  destruct (restore_preserves this w) as [Hf Hq].
  apply restore_depends_on_file; [by rewrite Hf|done].
Qed.

(** X15. Stores on different paths do not disturb each other. Whatever a
    [saveProgress] of one store does, succeed or fail, a [restore] of a
    store configured with another path returns what it would have returned
    before that save. *)
Theorem saves_elsewhere_are_invisible this that w :
  outputFile that <> outputFile this ->
  fst (run (restore that) (snd (run (saveProgress this) w)))
  = fst (run (restore that) w).
Proof.
  intros Hp. destruct (saveProgress_preserves this w _ Hp) as [Hf Hq].
  by apply restore_depends_on_file.
Qed.

(** X16. A shutdown whose snapshot provider raises. [saveProgress]
    catches the error before any write is issued, so [handleExit] never
    waits for a file operation: once the event has been handled the process
    has exited with the status of the cause, no task is suspended, the
    files are untouched, [saveProgress] has been called once, and the error
    entries are that of the save and that of the crash, if the cause is
    one. *)
Theorem shutdown_when_provider_raises options fs flt ev e :
  opt_getData options () = Throws e ->
  let p := deliver ev (started options fs flt) in
  exitCode (world p) = Some (expected_status ev)
  /\ pending p = []
  /\ files (world p) = fs
  /\ writes_issued (world p) = 0
  /\ saves (instance 0 options) (world p) = 1
  /\ errors_logged (world p)
     = S (match crash_report ev with Some _ => 1 | None => 0 end).
Proof.
  intros Hg p. subst p. unfold deliver.
  rewrite started_world; cbn [listeners].
  rewrite filter_coordinator_listeners; cbn [foldl].
  unfold spawn. rewrite started_world; cbn [exitCode world]. rewrite listener_advance.
  unfold handleExit, saveProgress, reported.
  destruct ev; cbn; rewrite Hg; cbn; repeat split; tally.
Qed.

End Properties.

(** * The scenarios of the test suite, run *)

Import MiniJSON Scenario.

(** Every value of the reference codec is JSON-serializable. *)
Lemma Json_serializable (v : Json) : JSON_serializable v.
Proof. exists (stringify v). split; [done|apply MiniJSON_facts.parse_stringify]. Qed.

(** With the reference codec the round trip holds for every snapshot. *)
Lemma Json_save_then_restore (this that : CatsaJanga Json) (w : World Json) (v : Json) :
  getData this () = Returns v ->
  write_fault (faults w) (outputFile this) = None ->
  stat_fault (faults w) (outputFile this) = None ->
  read_fault (faults w) (outputFile this) = None ->
  outputFile that = outputFile this ->
  exists w1 w2,
    run (saveProgress this) w = (Normal tt, w1)
    /\ files w1 !! outputFile this = Some (stringify v)
    /\ run (restore that) w1 = (Normal (Some v), w2).
Proof.
  intros Hg Hw Hs Hr Hpath.
  destruct (saveProgress_success this w v (stringify v) Hg ltac:(done) Hw)
    as (w1 & Hsave & Hf & Hq & _).
  assert (files w1 !! outputFile that = Some (stringify v)) as Hl.
  { by rewrite Hf, Hpath, lookup_insert_eq. }
  destruct (restore_success that w1 (stringify v) v) as (w2 & Hres & _);
    [done|by rewrite Hq, Hpath..|apply MiniJSON_facts.parse_stringify|].
  exists w1, w2. by rewrite <- Hpath at 1.
Qed.

Lemma restore_missing_file_witness :
  files cold !! outputFile saver = None
  /\ exists w',
      run (restore saver) cold = (Normal (initialData saver), w')
      /\ errors_logged w' = errors_logged cold
      /\ infos_logged w' = infos_logged cold
      /\ files w' = files cold.
Proof. split; [reflexivity|apply restore_missing_file; reflexivity]. Defined.

Lemma restore_corrupt_file_witness :
  files corrupted !! outputFile saver = Some corrupt
  /\ stat_fault (faults corrupted) (outputFile saver) = None
  /\ read_fault (faults corrupted) (outputFile saver) = None
  /\ JSON_parse corrupt = Throws SyntaxError
  /\ exists w',
      run (restore saver) corrupted = (Normal (Some fallback), w')
      /\ errors_logged w' = S (errors_logged corrupted)
      /\ trace w' = trace corrupted
                    ++ [FsCall OpStat tempFile true;
                        FsCall OpReadFile tempFile true;
                        Logged LError ("Error restoring progress: "
                                       +:+ Error_toString SyntaxError)].
Proof.
  do 4 (split; [vm_compute; reflexivity|]).
  apply (restore_corrupt_file saver corrupted corrupt SyntaxError);
    vm_compute; reflexivity.
Defined.

Lemma saveProgress_write_failure_witness :
  getData saver () = Returns testData
  /\ JSON_stringify testData = Returns (Some (stringify testData))
  /\ fst (fs_perform (WriteFile (outputFile saver) (Some (stringify testData)))
            readonly)
     = Throws (EACCES "open" tempFile)
  /\ exists w',
      run (saveProgress saver) readonly = (Normal tt, w')
      /\ errors_logged w' = S (errors_logged readonly)
      /\ trace w' = trace readonly
                    ++ [Called 0 "saveProgress";
                        Logged LInfo ("Saving progress to " +:+ tempFile +:+ "...");
                        FsCall OpWriteFile tempFile false;
                        Logged LError ("Error saving progress: "
                                       +:+ Error_toString (EACCES "open" tempFile))].
Proof.
  do 3 (split; [vm_compute; reflexivity|]).
  apply (saveProgress_write_failure saver readonly testData
           (Some (stringify testData)) (EACCES "open" tempFile));
    vm_compute; reflexivity.
Defined.

Lemma saveProgress_provider_raises_witness :
  getData (instance 0 failing_options) () = Throws unavailable
  /\ exists w',
      run (saveProgress (instance 0 failing_options)) cold = (Normal tt, w')
      /\ files w' = files cold
      /\ writes_issued w' = writes_issued cold
      /\ errors_logged w' = S (errors_logged cold)
      /\ trace w' = trace cold
                    ++ [Called 0 "saveProgress";
                        Logged LInfo ("Saving progress to " +:+ tempFile +:+ "...");
                        Logged LError ("Error saving progress: "
                                       +:+ Error_toString unavailable)].
Proof.
  split; [reflexivity|].
  apply (saveProgress_provider_raises (instance 0 failing_options) cold unavailable).
  reflexivity.
Defined.

Lemma save_then_restore_roundtrip_witness :
  getData saver () = Returns testData
  /\ JSON_serializable testData
  /\ write_fault (faults cold) (outputFile saver) = None
  /\ stat_fault (faults cold) (outputFile saver) = None
  /\ read_fault (faults cold) (outputFile saver) = None
  /\ outputFile reader = outputFile saver
  /\ exists text w1 w2,
      JSON_stringify testData = Returns (Some text)
      /\ run (saveProgress saver) cold = (Normal tt, w1)
      /\ files w1 !! outputFile saver = Some text
      /\ run (restore reader) w1 = (Normal (Some testData), w2).
Proof.
  assert (JSON_serializable testData) as Hser.
  { exists (stringify testData). split; vm_compute; reflexivity. }
  split; [reflexivity|]. split; [exact Hser|].
  do 4 (split; [vm_compute; reflexivity|]).
  apply (save_then_restore_roundtrip saver reader cold testData);
    [reflexivity|exact Hser|vm_compute; reflexivity..].
Defined.

Lemma crash_is_logged_before_guard_witness :
  let p := exec [] (deliver Interrupt (started options ∅ no_faults)) in
  crash_report (UncaughtException boom) = Some "Uncaught exception: boom"
  /\ exitCode (world p) = None
  /\ deliver (UncaughtException boom) p
     = {| world := emit (Logged LError "Uncaught exception: boom") (world p);
          pending := pending p |}.
Proof.
  split; [reflexivity|]. split; [vm_compute; reflexivity|].
  apply (crash_is_logged_before_guard options ∅ no_faults Interrupt []
           (UncaughtException boom) "Uncaught exception: boom");
    vm_compute; reflexivity.
Defined.

(** C7. The existence check fails with [EACCES] on a store configured
    with initial data: [restore] returns the initial data, as in the
    missing-file case, and the log stays empty; the error is not logged. *)
Theorem restore_stat_failure_is_silent :
  run (restore saver) denied
  = (Normal (Some fallback), emit (FsCall OpStat tempFile false) denied)
  /\ stat_fault (faults denied) tempFile = Some (EACCES "stat" tempFile)
  /\ errors_logged (snd (run (restore saver) denied)) = 0.
Proof.
  rewrite (restore_stat_failure saver denied (EACCES "stat" tempFile) eq_refl).
  by vm_compute.
Qed.

(** The scenario of the specification: [{items:[1,2,3], value:"test"}] is
    saved, the file holds its indented JSON text, and a fresh store on the
    same path restores an equal value. *)
Example scenario_save_then_restore :
  let w1 := snd (run (saveProgress saver) cold) in
  files w1 !! tempFile = Some (stringify testData)
  /\ parse (stringify testData) = Returns testData
  /\ fst (run (restore reader) w1) = Normal (Some testData).
Proof. by vm_compute. Qed.

(** The scenario of the specification: the corrupt content restores to the
    initial data [{fallback:true}]. *)
Example scenario_corrupt :
  fst (run (restore saver) corrupted) = Normal (Some fallback).
Proof. by vm_compute. Qed.

(** Registration adds exactly one listener for each of the four events. *)
Example scenario_registration (ev : Event) :
  length (filter (fun l => l_event l = event_name ev)
                 (listeners (world (started options ∅ no_faults)))) = 1.
Proof. by destruct ev. Qed.

(** Without the guard, as in the earlier revision, two signals in
    succession save twice. *)
Example unguarded_saves_twice :
  let p := deliver Interrupt (deliver Interrupt (started_v1 options ∅ no_faults)) in
  saves saver (world p) = 2 /\ length (pending p) = 2.
Proof. by vm_compute. Qed.

(** ** Instances of the further properties *)

Lemma restore_reads_checkpoint_witness :
  files saved !! outputFile saver = Some (stringify testData)
  /\ stat_fault (faults saved) (outputFile saver) = None
  /\ read_fault (faults saved) (outputFile saver) = None
  /\ JSON_parse (stringify testData) = Returns testData
  /\ exists w',
      run (restore saver) saved = (Normal (Some testData), w')
      /\ trace w' = trace saved
                    ++ [FsCall OpStat (outputFile saver) true;
                        FsCall OpReadFile (outputFile saver) true;
                        Logged LInfo "Progress data successfully restored"]
      /\ errors_logged w' = errors_logged saved
      /\ files w' = files saved.
Proof.
  do 4 (split; [vm_compute; reflexivity|]).
  apply (restore_reads_checkpoint saver saved (stringify testData) testData);
    vm_compute; reflexivity.
Defined.

Lemma restore_read_failure_witness :
  files locked !! outputFile saver = Some (stringify testData)
  /\ stat_fault (faults locked) (outputFile saver) = None
  /\ read_fault (faults locked) (outputFile saver) = Some (EACCES "open" tempFile)
  /\ exists w',
      run (restore saver) locked = (Normal (initialData saver), w')
      /\ trace w' = trace locked
                    ++ [FsCall OpStat (outputFile saver) true;
                        FsCall OpReadFile (outputFile saver) false;
                        Logged LError ("Error restoring progress: "
                                       +:+ Error_toString (EACCES "open" tempFile))]
      /\ errors_logged w' = S (errors_logged locked)
      /\ infos_logged w' = infos_logged locked
      /\ files w' = files locked.
Proof.
  do 3 (split; [vm_compute; reflexivity|]).
  apply (restore_read_failure saver locked (stringify testData)
           (EACCES "open" tempFile));
    vm_compute; reflexivity.
Defined.

Lemma saveProgress_overwrites_witness :
  getData saver () = Returns testData
  /\ JSON_stringify testData = Returns (Some (stringify testData))
  /\ write_fault (faults cold) (outputFile saver) = None
  /\ exists w1 w2,
      run (saveProgress saver) cold = (Normal tt, w1)
      /\ files w1 !! outputFile saver = Some (stringify testData)
      /\ (forall path, path <> outputFile saver -> files w1 !! path = files cold !! path)
      /\ trace w1 = trace cold
                    ++ [Called (self saver) "saveProgress";
                        Logged LInfo ("Saving progress to "
                                      +:+ outputFile saver +:+ "...");
                        FsCall OpWriteFile (outputFile saver) true]
      /\ errors_logged w1 = errors_logged cold
      /\ run (saveProgress saver) w1 = (Normal tt, w2)
      /\ files w2 = files w1.
Proof.
  do 3 (split; [reflexivity|]).
  apply (saveProgress_overwrites saver cold testData (stringify testData));
    reflexivity.
Defined.

Lemma saveProgress_without_text_witness :
  getData (instance 0 undefined_options) () = Returns None
  /\ (JSON_stringify (None : option Json) = Returns None
      \/ exists e, JSON_stringify (None : option Json) = Throws e)
  /\ exists w',
      run (saveProgress (instance 0 undefined_options)) cold_optional = (Normal tt, w')
      /\ files w' = files cold_optional
      /\ errors_logged w' = S (errors_logged cold_optional).
Proof.
  split; [reflexivity|]. split; [left; reflexivity|].
  apply (saveProgress_without_text (instance 0 undefined_options) cold_optional None);
    [reflexivity|left; reflexivity].
Defined.

Lemma shutdown_persists_snapshot_witness :
  opt_getData options () = Returns testData
  /\ JSON_stringify testData = Returns (Some (stringify testData))
  /\ write_fault no_faults (opt_outputFile options) = None
  /\ let p1 := deliver Terminate (started options ∅ no_faults) in
     let p2 := settle 0 p1 in
     exitCode (world p1) = None
     /\ files (world p2) = <[opt_outputFile options := stringify testData]> ∅
     /\ exitCode (world p2) = Some (expected_status Terminate)
     /\ trace (world p2)
        = match crash_report Terminate with
          | Some msg => [Logged LError msg]
          | None => []
          end
          ++ [Logged LInfo ("Process " +:+ cause Terminate +:+ ". Saving progress...");
              Called 0 "saveProgress";
              Logged LInfo ("Saving progress to " +:+ opt_outputFile options +:+ "...");
              FsCall OpWriteFile (opt_outputFile options) true;
              Exited (expected_status Terminate)].
Proof.
  do 3 (split; [reflexivity|]).
  apply (shutdown_persists_snapshot options ∅ no_faults Terminate testData
           (stringify testData));
    reflexivity.
Defined.

Lemma shutdown_exits_after_failed_save_witness :
  opt_getData options () = Returns testData
  /\ JSON_stringify testData = Returns (Some (stringify testData))
  /\ write_fault unwritable (opt_outputFile options)
     = Some {| wf_error := EACCES "open" tempFile; wf_written := None |}
  /\ let p2 := settle 0 (deliver Interrupt (started options ∅ unwritable)) in
     exitCode (world p2) = Some (expected_status Interrupt)
     /\ exits (world p2) = 1
     /\ errors_logged (world p2)
        = S (match crash_report Interrupt with Some _ => 1 | None => 0 end)
     /\ pending p2 = [].
Proof.
  do 3 (split; [reflexivity|]).
  apply (shutdown_exits_after_failed_save options ∅ unwritable Interrupt testData
           (stringify testData)
           {| wf_error := EACCES "open" tempFile; wf_written := None |});
    reflexivity.
Defined.

Lemma unguarded_revision_saves_twice_witness :
  opt_getData options () = Returns testData
  /\ JSON_stringify testData = Returns (Some (stringify testData))
  /\ let this := instance 0 options in
     let p := deliver (UncaughtException boom)
                (deliver Interrupt (started_v1 options ∅ no_faults)) in
     saves this (world p) = 2
     /\ length (pending p) = 2
     /\ exitCode (world p) = None
     /\ exitCode (world (settle 0 p)) = Some (expected_status Interrupt)
     /\ exitCode (world (settle 1 p)) = Some (expected_status (UncaughtException boom)).
Proof.
  do 2 (split; [reflexivity|]).
  apply (unguarded_revision_saves_twice options ∅ no_faults Interrupt
           (UncaughtException boom) testData (Some (stringify testData)));
    reflexivity.
Defined.

Lemma stores_have_their_own_guard_witness :
  opt_getData options () = Returns testData
  /\ JSON_stringify testData = Returns (Some (stringify testData))
  /\ opt_getData other_options () = Returns fallback
  /\ JSON_stringify fallback = Returns (Some (stringify fallback))
  /\ let p := deliver Terminate (started_two options other_options ∅ no_faults) in
     saves (instance 0 options) (world p) = 1
     /\ saves (instance 1 other_options) (world p) = 1
     /\ cells (world p) = [true; true]
     /\ length (pending p) = 2
     /\ exitCode (world p) = None
     /\ forall i, i < 2 ->
          exitCode (world (settle i p)) = Some (expected_status Terminate)
          /\ length (pending (settle i p)) = 1.
Proof.
  do 4 (split; [reflexivity|]).
  apply (stores_have_their_own_guard options other_options ∅ no_faults Terminate
           testData (Some (stringify testData)) fallback (Some (stringify fallback)));
    reflexivity.
Defined.

Lemma saves_elsewhere_are_invisible_witness :
  outputFile (instance 1 other_options) <> outputFile saver
  /\ fst (run (restore (instance 1 other_options)) (snd (run (saveProgress saver) cold)))
     = fst (run (restore (instance 1 other_options)) cold).
Proof.
  split; [vm_compute; discriminate|].
  apply (saves_elsewhere_are_invisible saver (instance 1 other_options) cold).
  vm_compute; discriminate.
Defined.

Lemma shutdown_when_provider_raises_witness :
  opt_getData failing_options () = Throws unavailable
  /\ let p := deliver Terminate (started failing_options ∅ no_faults) in
     exitCode (world p) = Some (expected_status Terminate)
     /\ pending p = []
     /\ files (world p) = ∅
     /\ writes_issued (world p) = 0
     /\ saves (instance 0 failing_options) (world p) = 1
     /\ errors_logged (world p)
        = S (match crash_report Terminate with Some _ => 1 | None => 0 end).
Proof.
  split; [reflexivity|].
  apply (shutdown_when_provider_raises failing_options ∅ no_faults Terminate
           unavailable).
  reflexivity.
Defined.
